(** * CLIProxyAPI: model routing and quota state, verified against the Go sources

    The development embeds the routing core (package [routing]) and the
    quota record and cache (package [auth], file [sdk/cliproxy/auth/quota.go])
    as Rocq functions and proves the properties stated for them.

    Conventions of the embedding:
    - a Go [string] is a [string] of bytes; case mapping and white space are
      those of the ASCII range (Go's [strings.ToLower] and
      [strings.TrimSpace] agree with them on ASCII input);
    - Go's [int], [int64] and [time.Duration] are [Z]; the arithmetic of the
      embedded code is far from the 64-bit range and is written without
      wrap-around;
    - a [time.Time] is the number of nanoseconds since the zero instant of
      [time.Time], so that [IsZero] is equality with [0]; monotonic clock
      readings and locations play no part in the embedded code;
    - a pointer that may be [nil] is an [option]; dereferencing goes through
      [deref], which panics on [nil];
    - a Go map is a [gmap]; a slice is a [list] ([nil] is the empty list). *)

From Stdlib Require Import ZArith Ascii String Lia Sorted.
From stdpp Require Import base option list gmap strings.

Local Open Scope Z_scope.

(* ===================================================================== *)
(** * Go's [strings] package, as far as the routing code uses it *)
(* ===================================================================== *)

Module GoStrings.

Definition byteIn (lo hi c : ascii) : bool :=
  ((nat_of_ascii lo <=? nat_of_ascii c)%nat
   && (nat_of_ascii c <=? nat_of_ascii hi)%nat)%bool.

Definition isDigit (c : ascii) : bool := byteIn "0" "9" c.

Definition isUpper (c : ascii) : bool := byteIn "A" "Z" c.

(** ['A'..'Z'] are moved to ['a'..'z'], every other byte is kept. *)
Definition lowerByte (c : ascii) : ascii :=
  if isUpper c then ascii_of_nat (nat_of_ascii c + 32) else c.

(** [strings.ToLower]. *)
Fixpoint ToLower (s : string) : string :=
  match s with
  | EmptyString => EmptyString
  | String c s' => String (lowerByte c) (ToLower s')
  end.

(** The white space of [unicode.IsSpace] in the ASCII range:
    tab, line feed, vertical tab, form feed, carriage return, space. *)
Definition isSpace (c : ascii) : bool :=
  match c with
  | "009" | "010" | "011" | "012" | "013" | " " => true
  | _ => false
  end%char.

Fixpoint trimLeft (s : string) : string :=
  match s with
  | EmptyString => EmptyString
  | String c s' => if isSpace c then trimLeft s' else s
  end.

Fixpoint trimRight (s : string) : string :=
  match s with
  | EmptyString => EmptyString
  | String c s' =>
      match trimRight s' with
      | EmptyString => if isSpace c then EmptyString else String c EmptyString
      | r => String c r
      end
  end.

(** [strings.TrimSpace]. *)
Definition TrimSpace (s : string) : string := trimRight (trimLeft s).

(** [len(s)], as a [nat]. *)
Definition len (s : string) : nat := String.length s.

(** [s[n:]] and [s[:n]]. *)
Fixpoint sliceFrom (n : nat) (s : string) : string :=
  match n, s with
  | O, _ => s
  | S n', EmptyString => EmptyString
  | S n', String _ s' => sliceFrom n' s'
  end.

Fixpoint sliceTo (n : nat) (s : string) : string :=
  match n, s with
  | O, _ => EmptyString
  | S n', EmptyString => EmptyString
  | S n', String c s' => String c (sliceTo n' s')
  end.

(** [strings.HasPrefix]. *)
Fixpoint HasPrefix (s prefix : string) {struct prefix} : bool :=
  match prefix, s with
  | EmptyString, _ => true
  | String _ _, EmptyString => false
  | String a p', String b s' => Ascii.eqb a b && HasPrefix s' p'
  end.

(** [strings.HasSuffix]:
    [len(s) >= len(suffix) && s[len(s)-len(suffix):] == suffix]. *)
Definition HasSuffix (s suffix : string) : bool :=
  (len suffix <=? len s)%nat
  && String.eqb (sliceFrom (len s - len suffix) s) suffix.

(** Position of the first occurrence of [sub] in [s]. *)
Fixpoint indexOf (s sub : string) : option nat :=
  if HasPrefix s sub then Some O
  else match s with
       | EmptyString => None
       | String _ s' => S <$> indexOf s' sub
       end.

(** [strings.Index]: the position of the first occurrence, or [-1]. *)
Definition Index (s sub : string) : Z :=
  match indexOf s sub with
  | Some i => Z.of_nat i
  | None => -1
  end.

(** [strings.Contains]: [Index(s, substr) >= 0]. *)
Definition Contains (s substr : string) : bool := 0 <=? Index s substr.

(** [strings.Split(s, sep)] for a separator of one byte, which is what
    both call sites pass (["-"] and ["*"]): the pieces between the
    separators, [n+1] of them when [sep] occurs [n] times. *)
Fixpoint Split (s : string) (sep : ascii) : list string :=
  match s with
  | EmptyString => [EmptyString]
  | String c s' =>
      if Ascii.eqb c sep then EmptyString :: Split s' sep
      else match Split s' sep with
           | h :: t => String c h :: t
           | [] => [String c EmptyString]
           end
  end.

(** [strings.Join(elems, sep)]. *)
Fixpoint Join (elems : list string) (sep : string) : string :=
  match elems with
  | [] => EmptyString
  | [e] => e
  | e :: rest => e +:+ sep +:+ Join rest sep
  end.

(** Every byte of [s] satisfies [p]. *)
Fixpoint allBytes (p : ascii -> bool) (s : string) : bool :=
  match s with
  | EmptyString => true
  | String c s' => p c && allBytes p s'
  end.

End GoStrings.

Import GoStrings.

(* ===================================================================== *)
(** * Package [routing]: the pure helpers of the model router *)
(* ===================================================================== *)

Module Routing.

(** ** Base-name extraction *)

(** [isDateLikeSuffix]: at least four bytes, all digits, and a length of
    4, 8 or 6. *)
Definition isDateLikeSuffix (s : string) : bool :=
  if (len s <? 4)%nat then false
  else if negb (allBytes isDigit s) then false
  else ((len s =? 4)%nat || (len s =? 8)%nat || (len s =? 6)%nat)%bool.

(** [isVersionSuffix]: one of the four release words, or a ['v'] followed
    by at least one byte, all of them digits or dots; compared in lower
    case. *)
Definition isVersionSuffix (s : string) : bool :=
  let s := ToLower s in
  if (String.eqb s "latest" || String.eqb s "preview"
      || String.eqb s "beta" || String.eqb s "alpha")%bool then true
  else
    match s with
    | String "v" rest =>
        if (2 <=? len s)%nat
        then allBytes (fun c => Ascii.eqb c "." || isDigit c)%bool rest
        else false
    | _ => false
    end.

(** The test of the scanning loop of [extractBaseModelName]. *)
Definition strippable (part : string) : bool :=
  (isDateLikeSuffix part || isVersionSuffix part)%bool.

(** The loop [for i := len(parts) - 1; i >= 0; i--]: [n] is [i + 1], the
    number of segments not yet visited. *)
Fixpoint scanCut (parts : list string) (n cutIndex : nat) : nat :=
  match n with
  | O => cutIndex
  | S i =>
      match parts !! i with
      | Some part => if strippable part then scanCut parts i i else cutIndex
      | None => cutIndex
      end
  end.

Definition extractBaseModelName (modelName : string) : string :=
  let modelName := TrimSpace modelName in
  if String.eqb modelName "" then ""
  else
    let parts := Split modelName "-" in
    if (length parts <=? 1)%nat then modelName
    else
      let cutIndex := scanCut parts (length parts) (length parts) in
      if (cutIndex =? 0)%nat then modelName
      else Join (take cutIndex parts) "-".

(** ** Model families *)

Definition inferModelFamily (baseName : string) : string :=
  let lower := ToLower baseName in
  if (Contains lower "claude" || Contains lower "sonnet"
      || Contains lower "opus" || Contains lower "haiku")%bool then "claude"
  else if (Contains lower "gpt" || Contains lower "o1"
           || Contains lower "o3" || Contains lower "codex")%bool then "gpt"
  else if Contains lower "gemini" then "gemini"
  else if Contains lower "qwen" then "qwen"
  else "".

(** ** Wildcard matching *)

(** The loop over the middle parts, [parts[1 .. len(parts)-2]]. *)
Fixpoint matchMiddle (middle : list string) (text : string) : bool :=
  match middle with
  | [] => true
  | part :: rest =>
      if String.eqb part "" then matchMiddle rest text
      else
        let idx := Index text part in
        if idx <? 0 then false
        else matchMiddle rest (sliceFrom (Z.to_nat idx + len part) text)
  end.

(** [parts[1 : len(parts)-1]]. *)
Definition middleParts (parts : list string) : list string :=
  take (length parts - 2) (drop 1 parts).

Definition matchWildcard (pattern text : string) : bool :=
  let pattern := ToLower pattern in
  let text := ToLower text in
  if String.eqb pattern "*" then true
  else if String.eqb pattern "" then String.eqb text ""
  else if negb (Contains pattern "*") then String.eqb pattern text
  else
    let parts := Split pattern "*" in
    if (length parts =? 0)%nat then true
    else
      let first := nth 0 parts "" in
      if (negb (String.eqb first "") && negb (HasPrefix text first))%bool
      then false
      else
        let text := sliceFrom (len first) text in
        let lastPart := nth (length parts - 1) parts "" in
        if (negb (String.eqb lastPart "")
            && negb (HasSuffix text lastPart))%bool
        then false
        else
          let text :=
            if negb (String.eqb lastPart "")
            then sliceTo (len text - len lastPart) text
            else text in
          matchMiddle (middleParts parts) text.

End Routing.

Import Routing.

(* ===================================================================== *)
(** * Package [auth]: quota state and quota cache ([quota.go]) *)
(* ===================================================================== *)

(** ** Results of Go code that may dereference [nil] *)

Inductive Go (A : Type) : Type :=
| Ok (a : A)
| Panic.
Arguments Ok {A} a.
Arguments Panic {A}.

Definition bindGo {A B : Type} (m : Go A) (k : A -> Go B) : Go B :=
  match m with
  | Ok a => k a
  | Panic => Panic
  end.

#[global] Instance Go_ret : MRet Go := @Ok.
#[global] Instance Go_bind : MBind Go := fun A B k m => bindGo m k.

(** [*p]: a nil pointer dereference panics. *)
Definition deref {A : Type} (p : option A) : Go A :=
  match p with
  | Some a => Ok a
  | None => Panic
  end.

(** [p == nil]. *)
Definition isNil {A : Type} (p : option A) : bool :=
  match p with
  | Some _ => false
  | None => true
  end.

(** ** [time.Time] and [time.Duration] *)

Module GoTime.

Definition Time : Type := Z.
Definition Duration : Type := Z.

(** [time.Time{}]. *)
Definition zero : Time := 0.

Definition IsZero (t : Time) : bool := t =? 0.

(** [t.After(u)]. *)
Definition After (t u : Time) : bool := u <? t.

(** [t.Add(d)], the exact sum. Go's [Add] is the exact sum as long as it
    is an instant a [time.Time] can hold ([noSaturation] below); at the
    ends of that range it saturates the seconds instead, which this
    definition leaves out. A statement that orders [Add t d] against [t]
    therefore takes [noSaturation t d] as a hypothesis. *)
Definition Add (t : Time) (d : Duration) : Time := t + d.

Definition Second : Duration := 1000000000.
Definition Minute : Duration := 60 * Second.




End GoTime.

Import GoTime.

Module QuotaInfo.

Record t : Type := mk {
  Total : Z;
  Remaining : Z;
  ResetAt : Time;
  Source : string;
  FetchedAt : Time
}.

(** [QuotaInfo{}]. *)
Definition empty : t := mk 0 0 zero "" zero.

End QuotaInfo.

Module QuotaState.

(** Modelled from the spec: the declaration of [QuotaState] is not among
    the sources. The fields are the ones [quota.go] reads and writes,
    with the types of section 3 of the specification. *)
Record t : Type := mk {
  Exceeded : bool;
  Reason : string;
  NextRecoverAt : Time;
  BackoffLevel : Z;
  Total : Z;
  Remaining : Z;
  ResetAt : Time;
  UpdatedAt : Time;
  Source : string
}.

Definition setExceeded (v : bool) (q : t) : t :=
  mk v (Reason q) (NextRecoverAt q) (BackoffLevel q) (Total q)
     (Remaining q) (ResetAt q) (UpdatedAt q) (Source q).
Definition setReason (v : string) (q : t) : t :=
  mk (Exceeded q) v (NextRecoverAt q) (BackoffLevel q) (Total q)
     (Remaining q) (ResetAt q) (UpdatedAt q) (Source q).
Definition setNextRecoverAt (v : Time) (q : t) : t :=
  mk (Exceeded q) (Reason q) v (BackoffLevel q) (Total q)
     (Remaining q) (ResetAt q) (UpdatedAt q) (Source q).
Definition setBackoffLevel (v : Z) (q : t) : t :=
  mk (Exceeded q) (Reason q) (NextRecoverAt q) v (Total q)
     (Remaining q) (ResetAt q) (UpdatedAt q) (Source q).
Definition setTotal (v : Z) (q : t) : t :=
  mk (Exceeded q) (Reason q) (NextRecoverAt q) (BackoffLevel q) v
     (Remaining q) (ResetAt q) (UpdatedAt q) (Source q).
Definition setRemaining (v : Z) (q : t) : t :=
  mk (Exceeded q) (Reason q) (NextRecoverAt q) (BackoffLevel q) (Total q)
     v (ResetAt q) (UpdatedAt q) (Source q).
Definition setResetAt (v : Time) (q : t) : t :=
  mk (Exceeded q) (Reason q) (NextRecoverAt q) (BackoffLevel q) (Total q)
     (Remaining q) v (UpdatedAt q) (Source q).
Definition setUpdatedAt (v : Time) (q : t) : t :=
  mk (Exceeded q) (Reason q) (NextRecoverAt q) (BackoffLevel q) (Total q)
     (Remaining q) (ResetAt q) v (Source q).
Definition setSource (v : string) (q : t) : t :=
  mk (Exceeded q) (Reason q) (NextRecoverAt q) (BackoffLevel q) (Total q)
     (Remaining q) (ResetAt q) (UpdatedAt q) v.

End QuotaState.

Module Quota.

Import QuotaState.

(** ** The quota state machine *)

(** [IsQuotaExhausted(q, now)]. *)
Definition IsQuotaExhausted (q : option QuotaState.t) (now : Time)
  : Go (bool * Time) :=
  if isNil q then Ok (false, zero)
  else
    s ← deref q;
    if Exceeded s then
      let resetTime := ResetAt s in
      let resetTime :=
        if IsZero resetTime then NextRecoverAt s else resetTime in
      if (negb (IsZero resetTime) && After resetTime now)%bool
      then Ok (true, resetTime)
      else if (negb (IsZero resetTime) && negb (After resetTime now))%bool
      then Ok (false, zero)
      else Ok (true, zero)
    else if ((Remaining s =? 0) && (0 <? Total s))%bool then
      let resetTime := ResetAt s in
      let resetTime :=
        if IsZero resetTime then NextRecoverAt s else resetTime in
      if (negb (IsZero resetTime) && After resetTime now)%bool
      then Ok (true, resetTime)
      else if negb (IsZero resetTime)
      then Ok (false, zero)
      else Ok (true, zero)
    else Ok (false, zero).

(** [GetEffectiveResetTime(q)]. *)
Definition GetEffectiveResetTime (q : option QuotaState.t) : Go Time :=
  if isNil q then Ok zero
  else
    s ← deref q;
    if negb (IsZero (ResetAt s)) then Ok (ResetAt s)
    else Ok (NextRecoverAt s).

(** [UpdateQuotaFromInfo(q, info)]; the result is the record [q] points
    to after the call. *)
Definition UpdateQuotaFromInfo (q : option QuotaState.t) (info : QuotaInfo.t)
  : Go (option QuotaState.t) :=
  if isNil q then Ok q
  else
    s ← deref q;
    let s := setTotal (QuotaInfo.Total info) s in
    let s := setRemaining (QuotaInfo.Remaining info) s in
    let s := setResetAt (QuotaInfo.ResetAt info) s in
    let s := setUpdatedAt (QuotaInfo.FetchedAt info) s in
    let s := setSource (QuotaInfo.Source info) s in
    if ((QuotaInfo.Remaining info =? 0) && (0 <? QuotaInfo.Total info))%bool
    then
      let s := setExceeded true s in
      let s := setReason "quota_exhausted" s in
      if (IsZero (NextRecoverAt s)
          && negb (IsZero (QuotaInfo.ResetAt info)))%bool
      then Ok (Some (setNextRecoverAt (QuotaInfo.ResetAt info) s))
      else Ok (Some s)
    else Ok (Some s).

(** [ClearQuotaState(q, now)]. *)
Definition ClearQuotaState (q : option QuotaState.t) (now : Time)
  : Go (option QuotaState.t) :=
  if isNil q then Ok q
  else
    s ← deref q;
    let s := setExceeded false s in
    let s := setReason "" s in
    let s := setNextRecoverAt zero s in
    let s := setBackoffLevel 0 s in
    let s := setRemaining (-1) s in
    let s := setTotal (-1) s in
    let s := setResetAt zero s in
    let s := setUpdatedAt now s in
    let s := setSource "" s in
    Ok (Some s).

Section Cooldown.

(** Modelled from the spec: [nextQuotaCooldown] is not among the
    sources. It maps a backoff level to a cooldown and the next level
    (section 4.5: an exponential schedule, increasing, capped, advancing
    to the next level); the quota functions are parametric in it. *)
Variable nextQuotaCooldown : Z -> Duration * Z.

(** [UpdateQuotaFrom429(q, retryAfter, now, backoffLevel)]. *)
Definition UpdateQuotaFrom429 (q : option QuotaState.t)
    (retryAfter : option Duration) (now : Time) (backoffLevel : Z)
  : Go (option QuotaState.t) :=
  if isNil q then Ok q
  else
    s ← deref q;
    let s := setExceeded true s in
    let s := setReason "quota" s in
    let s := setRemaining 0 s in
    let s := setUpdatedAt now s in
    let s := setSource "429" s in
    '(next, s) ←
      (if negb (isNil retryAfter) then
         d ← deref retryAfter;
         Ok (Add now d, s)
       else
         let '(cooldown, nextLevel) := nextQuotaCooldown backoffLevel in
         let next := if 0 <? cooldown then Add now cooldown else zero in
         Ok (next, setBackoffLevel nextLevel s));
    let s := setNextRecoverAt next s in
    let s := setResetAt next s in
    Ok (Some s).

End Cooldown.

(** Modelled from the spec: a schedule as section 4.5 describes it, the
    cooldown doubling from one second with the level and capped at thirty
    minutes, the level advancing until the cap is reached. The exact
    curve is left open by the specification; the theorems below hold for
    every schedule and use this one only as an instance. *)
Definition specQuotaCooldown (prevLevel : Z) : Duration * Z :=
  let prevLevel := Z.max 0 prevLevel in
  let cooldown := Second * 2 ^ prevLevel in
  if 30 * Minute <=? cooldown then (30 * Minute, prevLevel)
  else (cooldown, prevLevel + 1).

End Quota.

Module QuotaCache.

(** [quotaCacheEntry]. *)
Record quotaCacheEntry : Type := mkEntry {
  info : QuotaInfo.t;
  expiresAt : Time
}.

(** [map[string]*quotaCacheEntry]: [None] is the nil map, and a value of
    the map is a pointer that may be nil. *)
Abbreviation entryMap := (option (gmap string (option quotaCacheEntry))).

(** [QuotaCache]; the lock [mu] protects [entries] and has no counterpart
    in this sequential embedding. *)
Record t : Type := mk {
  entries : entryMap;
  ttl : Duration
}.

(** [m[key]] with the [ok] flag: reading a nil map finds nothing. *)
Definition mapLookup (m : entryMap) (key : string)
  : option (option quotaCacheEntry) :=
  match m with
  | Some g => g !! key
  | None => None
  end.

(** [m[key] = v]: an assignment to an entry of a nil map panics. *)
Definition mapStore (m : entryMap) (key : string)
    (v : option quotaCacheEntry) : Go entryMap :=
  match m with
  | Some g => Ok (Some (<[key := v]> g))
  | None => Panic
  end.

(** [delete(m, key)]: a no-op on a nil map. *)
Definition mapDelete (m : entryMap) (key : string) : entryMap :=
  match m with
  | Some g => Some (delete key g)
  | None => None
  end.

(** [quotaCacheKey]. *)
Definition quotaCacheKey (provider authID model : string) : string :=
  provider +:+ ":" +:+ authID +:+ ":" +:+ model.

(** [NewQuotaCache(ttl)]: the pointer to the new cache. *)
Definition NewQuotaCache (ttl : Duration) : option t :=
  let ttl := if ttl <=? 0 then 5 * Minute else ttl in
  Some (mk (Some ∅) ttl).

(** [c.Get(provider, authID, model)], with the reading [now] of
    [time.Now()]; the second component is the cache after the call. *)
Definition Get (c : option t) (provider authID model : string) (now : Time)
  : Go ((QuotaInfo.t * bool) * option t) :=
  if isNil c then Ok ((QuotaInfo.empty, false), c)
  else
    cc ← deref c;
    let key := quotaCacheKey provider authID model in
    match mapLookup (entries cc) key with
    | None => Ok ((QuotaInfo.empty, false), c)
    | Some entry =>
        if isNil entry then Ok ((QuotaInfo.empty, false), c)
        else
          e ← deref entry;
          if After now (expiresAt e) then Ok ((QuotaInfo.empty, false), c)
          else Ok ((info e, true), c)
    end.

(** [c.Set(provider, authID, model, info)]: the cache after the call. *)
Definition Set_ (c : option t) (provider authID model : string)
    (i : QuotaInfo.t) (now : Time) : Go (option t) :=
  if isNil c then Ok c
  else
    cc ← deref c;
    let key := quotaCacheKey provider authID model in
    m ← mapStore (entries cc) key (Some (mkEntry i (Add now (ttl cc))));
    Ok (Some (mk m (ttl cc))).

(** [c.Invalidate(provider, authID, model)]. *)
Definition Invalidate (c : option t) (provider authID model : string)
  : Go (option t) :=
  if isNil c then Ok c
  else
    cc ← deref c;
    let key := quotaCacheKey provider authID model in
    Ok (Some (mk (mapDelete (entries cc) key) (ttl cc))).

(** The test of the sweep: [entry == nil || now.After(entry.expiresAt)]. *)
Definition swept (now : Time) (entry : option quotaCacheEntry) : bool :=
  match entry with
  | None => true
  | Some e => After now (expiresAt e)
  end.

(** [c.Cleanup()]: the loop deletes every key whose entry passes the
    test; ranging over a nil map does nothing. *)
Definition Cleanup (c : option t) (now : Time) : Go (option t) :=
  if isNil c then Ok c
  else
    cc ← deref c;
    let m :=
      match entries cc with
      | Some g => Some (filter (fun kv => swept now kv.2 = false) g)
      | None => None
      end in
    Ok (Some (mk m (ttl cc))).

End QuotaCache.

(* ===================================================================== *)
(** * Package [routing]: the model router *)
(* ===================================================================== *)

Module Config.

(** Modelled from the spec: package [config] is not among the sources.
    The two records have the fields the router reads, with the types of
    section 6 of the specification. *)
Record ModelRouteEntry : Type := mkEntry {
  Name : string;
  Fuzzy : bool;
  Candidates : list string
}.

(** Modelled from the spec: the routing configuration of section 6, the
    rules, the family to provider-priority mapping, the auto-search flag
    and the cache location. [NativeProviderPriority] is a
    [map[string][]string] that may be nil. *)
Record ModelRoutingConfig : Type := mk {
  Enabled : bool;
  AutoSearch : bool;
  Routes : list ModelRouteEntry;
  CacheFile : string;
  NativeProviderPriority : option (gmap string (list string))
}.

End Config.

Module RouteCache.

(** Modelled from the spec: [RouteCache] is not among the sources. By
    sections 2 and 3 it is a key-value store from the virtual model name
    to the last successful concrete model, bound to a location; an entry
    is created or overwritten by [Set] and read by [Get], which the router
    expects to answer the empty string when there is none. *)
Record t : Type := mk {
  authDir : string;
  cacheFile : string;
  store : gmap string string
}.

(** Modelled from the spec: [cache.Get(virtualModel)], the model stored
    for the name, or the empty string. *)
Definition Get (c : t) (virtualModel : string) : string :=
  default "" (store c !! virtualModel).

(** Modelled from the spec: [cache.Set(virtualModel, actualModel)] creates
    or overwrites the entry of the name. *)
Definition Set_ (c : t) (virtualModel actualModel : string) : t :=
  mk (authDir c) (cacheFile c) (<[virtualModel := actualModel]> (store c)).

End RouteCache.

(** The collaborators of the router that are not among the sources: the
    model registry, and the way a route cache is opened at, or moved to, a
    location of the durable store. *)
Class Collaborators : Type := {
  (** [registry.GetGlobalRegistry().GetAvailableModels("")], each model
      reduced to [model["id"].(string)]: [None] when the assertion fails. *)
  GetAvailableModels : list (option string);
  (** [util.GetProviderName(modelID)]. *)
  GetProviderName : string -> list string;
  (** [registry.LookupModelInfo(modelID)], reduced to the [Type] field:
      [None] when the info is nil. *)
  LookupModelInfo : string -> option string;
  (** [NewRouteCache(authDir, cacheFile)]. *)
  NewRouteCache : string -> string -> RouteCache.t;
  (** [cache.UpdatePath(authDir, cacheFile)]. *)
  UpdatePath : RouteCache.t -> string -> string -> RouteCache.t
}.

Module Router.

Import Config.

(** [ModelRouter], without its lock. The values of [routes] and [fuzzy]
    point into the route list of the configuration, which is never
    modified once loaded; they are never nil. *)
Record ModelRouter : Type := mkRouter {
  cfg : option ModelRoutingConfig;
  cache : option RouteCache.t;
  routes : gmap string ModelRouteEntry;
  fuzzy : list ModelRouteEntry
}.

(** [candidateInfo]. *)
Record candidateInfo : Type := mkInfo {
  modelID : string;
  providers : list string;
  modelType : string
}.

(** ** Ranking by provider priority *)

(** [getBestProviderPriority]. *)
Definition getBestProviderPriority (providers : list string)
    (priorityMap : gmap string Z) : Z :=
  foldl (fun best provider =>
           match priorityMap !! provider with
           | Some priority => if priority <? best then priority else best
           | None => best
           end) 9999 providers.

(** The loop [for i, provider := range priorityList]
    that fills [priorityMap], started at index [i]. *)
Fixpoint fillPriorityMap (i : Z) (priorityList : list string)
    (priorityMap : gmap string Z) : gmap string Z :=
  match priorityList with
  | [] => priorityMap
  | provider :: rest =>
      fillPriorityMap (i + 1) rest (<[provider := i]> priorityMap)
  end.

(** [sort.SliceStable(s, less)]. The result of a stable sort is determined
    by [less] (here the comparison of an integer key): it is the sorted
    arrangement that keeps equal elements in their order. Insertion from
    the right computes it: [x], which precedes all of [l], goes before
    the first [y] that is not less than it. *)
Section SliceStable.
Context {A : Type} (less : A -> A -> bool).

Fixpoint insertStable (x : A) (l : list A) : list A :=
  match l with
  | [] => [x]
  | y :: l' => if less y x then y :: insertStable x l' else x :: l
  end.

Fixpoint SliceStable (l : list A) : list A :=
  match l with
  | [] => []
  | x :: l' => insertStable x (SliceStable l')
  end.
End SliceStable.

(** The comparison [less] of a sort by an integer key, and what it is for
    a list to be in the order of its keys. *)
Definition lessBy {A : Type} (key : A -> Z) (x y : A) : bool := key x <? key y.

Definition sortedBy {A : Type} (key : A -> Z) (l : list A) : Prop :=
  StronglySorted (fun x y => key x <= key y) l.

(** [provider] is one of the providers that serve the candidate. *)
Definition servedBy (provider : string) (c : candidateInfo) : bool :=
  existsb (String.eqb provider) (providers c).

(** One of the providers of the candidate is in the priority list. *)
Definition prioritized (priorityList : list string) (c : candidateInfo)
  : bool :=
  existsb (fun provider => existsb (String.eqb provider) priorityList)
          (providers c).

(** The priority list the configuration gives to a family; a nil
    configuration, a nil map and a missing key all yield the nil slice. *)
Definition priorityListOf (r : ModelRouter) (family : string) : list string :=
  match cfg r with
  | Some c =>
      match NativeProviderPriority c with
      | Some m => default [] (m !! family)
      | None => []
      end
  | None => []
  end.

(** [sortCandidatesByProviderPriority]. *)
Definition sortCandidatesByProviderPriority (r : ModelRouter)
    (candidates : list candidateInfo) (baseName : string) : list string :=
  let family := inferModelFamily baseName in
  let priorityList := priorityListOf r family in
  if (length priorityList =? 0)%nat then map modelID candidates
  else
    let priorityMap := fillPriorityMap 0 priorityList ∅ in
    let candidates :=
      SliceStable
        (fun ci cj =>
           getBestProviderPriority (providers ci) priorityMap
           <? getBestProviderPriority (providers cj) priorityMap)
        candidates in
    map modelID candidates.

(** ** Rule lookup *)

(** [findRouteEntry]: [None] is the nil entry. *)
Definition findRouteEntry (r : ModelRouter) (modelName : string)
  : option ModelRouteEntry :=
  let lowerName := ToLower modelName in
  match routes r !! lowerName with
  | Some entry => Some entry
  | None =>
      List.find (fun entry => Contains lowerName (ToLower (Name entry)))
                (fuzzy r)
  end.

(** [IsEnabled]. *)
Definition IsEnabled (r : ModelRouter) : bool :=
  match cfg r with
  | Some c => Enabled c
  | None => false
  end.

(** The router with the [AutoSearch] flag of its configuration set to
    [b], everything else as it is. *)
Definition withAutoSearch (b : bool) (r : ModelRouter) : ModelRouter :=
  mkRouter
    (fmap (fun c => Config.mk (Enabled c) b (Routes c) (CacheFile c)
                              (NativeProviderPriority c)) (cfg r))
    (cache r) (routes r) (fuzzy r).

Section WithCollaborators.
Context `{Collaborators}.

(** ** Auto-discovery *)

(** One iteration of the loop over [allModels] in [autoSearchModels];
    the state is [candidatesInfo] and the set [seen]. *)
Definition autoSearchStep (lowerBase : string)
    (st : list candidateInfo * gset string) (model : option string)
  : list candidateInfo * gset string :=
  let '(candidatesInfo, seen) := st in
  match model with
  | None => st
  | Some modelID =>
      if String.eqb modelID "" then st
      else if Contains (ToLower modelID) lowerBase then
        let providers := GetProviderName modelID in
        if (0 <? length providers)%nat then
          if decide (modelID ∈ seen) then st
          else
            let modelType := default "" (LookupModelInfo modelID) in
            (candidatesInfo ++ [mkInfo modelID providers modelType],
             {[modelID]} ∪ seen)
        else st
      else st
  end.

(** [autoSearchModels]. *)
Definition autoSearchModels (r : ModelRouter) (modelName : string)
  : list string :=
  let baseName := extractBaseModelName modelName in
  if String.eqb baseName "" then []
  else
    let lowerBase := ToLower baseName in
    let allModels := GetAvailableModels in
    let '(candidatesInfo, _) :=
      foldl (autoSearchStep lowerBase) ([], ∅) allModels in
    if (length candidatesInfo =? 0)%nat then []
    else sortCandidatesByProviderPriority r candidatesInfo baseName.

(** ** Candidates of a virtual model *)

(** [cached] followed by the elements of [l] other than [cached]. *)
Definition cachedFirst (cached : string) (l : list string) : list string :=
  cached :: List.filter (fun c => negb (String.eqb c cached)) l.

(** [GetCandidates]; the nil slice is the empty list. *)
Definition GetCandidates (r : ModelRouter) (modelName : string)
  : list string :=
  if negb (IsEnabled r) then []
  else
    let modelName := TrimSpace modelName in
    if String.eqb modelName "" then []
    else
      let cached :=
        match cache r with
        | Some c => RouteCache.Get c modelName
        | None => ""
        end in
      if (negb (isNil (cache r)) && negb (String.eqb cached ""))%bool then
        match findRouteEntry r modelName with
        | Some entry => cachedFirst cached (Candidates entry)
        | None =>
            let autoResults := autoSearchModels r modelName in
            if (0 <? length autoResults)%nat
            then cachedFirst cached autoResults
            else [cached]
        end
      else
        match findRouteEntry r modelName with
        | Some entry => Candidates entry
        | None =>
            if (negb (isNil (cfg r))
                && from_option AutoSearch false (cfg r))%bool
            then autoSearchModels r modelName
            else []
        end.

(** [RecordSuccess]: the router after the call. *)
Definition RecordSuccess (r : ModelRouter)
    (virtualModel actualModel : string) : ModelRouter :=
  if negb (IsEnabled r) then r
  else
    match cache r with
    | Some c =>
        mkRouter (cfg r)
                 (Some (RouteCache.Set_ c virtualModel actualModel))
                 (routes r) (fuzzy r)
    | None => r
    end.

(** A run of [RecordSuccess] calls, each given as the pair of its
    arguments, from the first to the last. *)
Definition recordAll (r : ModelRouter) (calls : list (string * string))
  : ModelRouter :=
  foldl (fun r call => RecordSuccess r call.1 call.2) r calls.

(** ** Configuration *)

(** One iteration of the index-building loop of [UpdateConfig]. *)
Definition indexStep
    (st : gmap string ModelRouteEntry * list ModelRouteEntry)
    (entry : ModelRouteEntry)
  : gmap string ModelRouteEntry * list ModelRouteEntry :=
  let '(routes, fuzzy) := st in
  let name := TrimSpace (Name entry) in
  if String.eqb name "" then st
  else if Fuzzy entry then (routes, fuzzy ++ [entry])
  else (<[ToLower name := entry]> routes, fuzzy).

(** [UpdateConfig]: the router after the call. *)
Definition UpdateConfig (r : ModelRouter)
    (c : option ModelRoutingConfig) (authDir : string) : ModelRouter :=
  let r := mkRouter c (cache r) ∅ [] in
  if (isNil c || negb (from_option Enabled false c))%bool then r
  else
    let '(routes, fuzzy) :=
      foldl indexStep (∅, []) (from_option Routes [] c) in
    let cacheFile := from_option CacheFile "" c in
    let cacheFile :=
      if String.eqb cacheFile "" then "model-routing-cache.json"
      else cacheFile in
    let cache :=
      match cache r with
      | None => NewRouteCache authDir cacheFile
      | Some rc => UpdatePath rc authDir cacheFile
      end in
    mkRouter c (Some cache) routes fuzzy.

(** [NewModelRouter]. *)
Definition NewModelRouter (c : option ModelRoutingConfig)
    (authDir : string) : ModelRouter :=
  let r := mkRouter None None ∅ [] in
  if negb (isNil c) then UpdateConfig r c authDir else r.

End WithCollaborators.

End Router.

(* ===================================================================== *)
(** * What a wildcard pattern matches *)
(* ===================================================================== *)

Module Glob.

(** The matching relation of the specification, written from its words
    (section 4.2): [*] is the only special token and matches zero or more
    characters; every other byte of the pattern matches itself. Case is
    handled by comparing the lower-case forms. *)
Inductive matches : string -> string -> Prop :=
| matches_empty : matches "" ""
| matches_star_none (p t : string) :
    matches p t -> matches (String "*" p) t
| matches_star_more (p : string) (c : ascii) (t : string) :
    matches (String "*" p) t -> matches (String "*" p) (String c t)
| matches_byte (c : ascii) (p t : string) :
    c <> "*"%char -> matches p t -> matches (String c p) (String c t).

(** [s] holds no [*]. *)
Definition starFree (s : string) : bool :=
  allBytes (fun c => negb (Ascii.eqb c "*")) s.

(** [text] holds the middle parts one after the other, in this order, with
    anything before, between and after them. *)
Fixpoint holdsInOrder (middle : list string) (text : string) : Prop :=
  match middle with
  | [] => True
  | part :: rest =>
      exists u v, text = u +:+ part +:+ v /\ holdsInOrder rest v
  end.

End Glob.

(* ===================================================================== *)
(** * Resolution of a candidate pattern *)
(* ===================================================================== *)

Module Resolve.

(** The result of [thinking.ParseSuffix], as far as the router reads it. *)
Record SuffixResult : Type := mkSuffix {
  ModelName : string;
  HasSuffix : bool;
  RawSuffix : string
}.

(** [fmt.Sprintf("%s(%s)", model, suffix)]. *)
Definition withSuffix (model suffix : string) : string :=
  model +:+ "(" +:+ suffix +:+ ")".

Section WithParser.
Context `{Collaborators}.

(** [thinking.ParseSuffix] is not among the sources; the router is
    parametric in it. *)
Variable ParseSuffix : string -> SuffixResult.

(** The loop of [ResolveFuzzyCandidate] over the models of the registry:
    the first model with an [id] that matches the pattern and has a
    provider. *)
Fixpoint resolveLoop (pattern suffix : string)
    (allModels : list (option string)) : string :=
  match allModels with
  | [] => ""
  | model :: rest =>
      match model with
      | None => resolveLoop pattern suffix rest
      | Some modelID =>
          if String.eqb modelID "" then resolveLoop pattern suffix rest
          else if matchWildcard pattern modelID then
            if (0 <? length (GetProviderName modelID))%nat then
              if negb (String.eqb suffix "") then withSuffix modelID suffix
              else modelID
            else resolveLoop pattern suffix rest
          else resolveLoop pattern suffix rest
      end
  end.

(** [ResolveFuzzyCandidate]. *)
Definition ResolveFuzzyCandidate (candidate : string) : string :=
  let candidate := TrimSpace candidate in
  if String.eqb candidate "" then ""
  else
    let parsed := ParseSuffix candidate in
    let pattern := ModelName parsed in
    let suffix := if HasSuffix parsed then RawSuffix parsed else "" in
    if negb (Contains pattern "*") then
      if (0 <? length (GetProviderName pattern))%nat then
        if negb (String.eqb suffix "") then withSuffix pattern suffix
        else pattern
      else ""
    else resolveLoop pattern suffix GetAvailableModels.

End WithParser.

End Resolve.

(* ===================================================================== *)
(** * Vocabulary for the router *)
(* ===================================================================== *)

Module RouterSpec.

(** [s] holds no hyphen. *)
Definition dashFree (s : string) : bool :=
  allBytes (fun c => negb (Ascii.eqb c "-")) s.

(** The rules [UpdateConfig] loads: those whose name is not blank. A
    loaded rule that is not fuzzy is an exact rule for the key [k] when its
    trimmed name, in lower case, is [k]. *)
Definition loaded (entry : Config.ModelRouteEntry) : bool :=
  negb (String.eqb (TrimSpace (Config.Name entry)) "").

Definition loadedFuzzy (entry : Config.ModelRouteEntry) : bool :=
  (loaded entry && Config.Fuzzy entry)%bool.

Definition loadedExact (k : string) (entry : Config.ModelRouteEntry) : bool :=
  (loaded entry && negb (Config.Fuzzy entry)
   && String.eqb (ToLower (TrimSpace (Config.Name entry))) k)%bool.

(** A model of the registry that auto-discovery takes for the lower-case
    base name: it has a non-empty id that contains the base name, case
    apart, and at least one provider. *)
Definition discoverable `{Collaborators} (lowerBase modelID : string) : bool :=
  (negb (String.eqb modelID "")
   && Contains (ToLower modelID) lowerBase
   && (0 <? length (GetProviderName modelID))%nat)%bool.

(** What the loop of [autoSearchModels] has collected after the models
    [processed]: the ids collected are those of the set [seen], they are
    pairwise different, and they are the discoverable ids met so far. *)
Definition collected `{Collaborators} (lowerBase : string)
    (processed : list (option string))
    (st : list Router.candidateInfo * gset string) : Prop :=
  (forall m, m ∈ st.2 <-> In m (map Router.modelID st.1))
  /\ NoDup (map Router.modelID st.1)
  /\ (forall m, In m (map Router.modelID st.1)
                <-> In (Some m) processed /\ discoverable lowerBase m = true).

(** A model of the registry that resolves the pattern: it has a non-empty
    id that matches the pattern and at least one provider. *)
Definition resolves `{Collaborators} (pattern : string)
    (model : option string) : bool :=
  match model with
  | Some modelID =>
      (negb (String.eqb modelID "")
       && matchWildcard pattern modelID
       && (0 <? length (GetProviderName modelID))%nat)%bool
  | None => false
  end.

(** A resolved model id with its suffix re-attached in parentheses, when there
    is one. *)
Definition decorate (suffix modelID : string) : string :=
  if negb (String.eqb suffix "") then Resolve.withSuffix modelID suffix
  else modelID.

End RouterSpec.

(* ===================================================================== *)
(** * Vocabulary for the quota cache *)
(* ===================================================================== *)

Module QuotaCacheSpec.

Import QuotaCache.

(** [s] holds no colon. *)
Definition colonFree (s : string) : bool :=
  allBytes (fun c => negb (Ascii.eqb c ":")) s.

(** The caches a program can reach through the constructor and the
    methods: [NewQuotaCache], then any run of [Set], [Invalidate] and
    [Cleanup] ([Get] leaves the cache as it is). *)
Inductive built : option QuotaCache.t -> Prop :=
| built_new (d : Duration) : built (NewQuotaCache d)
| built_Set (c c' : option QuotaCache.t) (p a m : string) (i : QuotaInfo.t)
    (now : Time) :
    built c -> Set_ c p a m i now = Ok c' -> built c'
| built_Invalidate (c c' : option QuotaCache.t) (p a m : string) :
    built c -> Invalidate c p a m = Ok c' -> built c'
| built_Cleanup (c c' : option QuotaCache.t) (now : Time) :
    built c -> Cleanup c now = Ok c' -> built c'.

End QuotaCacheSpec.

(* ===================================================================== *)
(** * A small deployment, used to run the router *)
(* ===================================================================== *)

Module Demo.

Import Config Router.

(** A registry of five entries: one without an [id], one served by no
    provider, one listed twice. *)
#[export] Instance collaborators : Collaborators := {|
  GetAvailableModels :=
    [Some "gpt-x-mini"; None; Some "gpt-x-2024-08"; Some "gpt-x-orphan";
     Some "claude-opus"; Some "gpt-x-2024-08"];
  GetProviderName := fun modelID =>
    if String.eqb modelID "gpt-x-mini" then ["p1"]
    else if String.eqb modelID "gpt-x-2024-08" then ["p3"; "p2"]
    else if String.eqb modelID "claude-opus" then ["p1"]
    else [];
  LookupModelInfo := fun _ => None;
  NewRouteCache := fun authDir cacheFile => RouteCache.mk authDir cacheFile ∅;
  UpdatePath := fun c authDir cacheFile =>
    RouteCache.mk authDir cacheFile (RouteCache.store c)
|}.

(** One fuzzy rule, and a provider priority for the family ["gpt"]. *)
Definition config (autoSearch : bool) : ModelRoutingConfig :=
  Config.mk true autoSearch
    [Config.mkEntry "fast" true ["model-a"; "model-b"]]
    ""
    (Some {[ "gpt" := ["p2"; "p1"] ]}).

Definition router (autoSearch : bool) : ModelRouter :=
  NewModelRouter (Some (config autoSearch)) "auth".

End Demo.

(* ===================================================================== *)
(** * A suffix parser, used to run the resolution *)
(* ===================================================================== *)

Module DemoResolve.

(** A stand-in for [thinking.ParseSuffix] that knows one annotated
    candidate and finds no suffix in any other. *)
Definition parseSuffix (candidate : string) : Resolve.SuffixResult :=
  if String.eqb candidate "*GPT-X*(high)"
  then Resolve.mkSuffix "*GPT-X*" true "high"
  else Resolve.mkSuffix candidate false "".

End DemoResolve.

(* ===================================================================== *)
(** * The embedded functions on concrete inputs *)
(* ===================================================================== *)

Example ToLower_ex : ToLower "Claude-Sonnet_4.5" = "claude-sonnet_4.5".
Proof. reflexivity. Qed.

Example TrimSpace_ex : TrimSpace "  gpt 5 " = "gpt 5".
Proof. reflexivity. Qed.

Example Split_ex : Split "gpt-4--turbo-" "-" = ["gpt"; "4"; ""; "turbo"; ""].
Proof. reflexivity. Qed.

Example Join_ex : Join ["gpt"; "4"; ""; "turbo"] "-" = "gpt-4--turbo".
Proof. reflexivity. Qed.

Example Index_ex : Index "openai-gpt-5" "gpt" = 7 /\ Index "openai" "gpt" = -1.
Proof. split; reflexivity. Qed.

Example HasSuffix_ex : HasSuffix "axxbyyc" "yc" = true /\ HasSuffix "c" "yc" = false.
Proof. split; reflexivity. Qed.

Example extract_ex1 : extractBaseModelName "claude-sonnet-20251124" = "claude-sonnet".
Proof. reflexivity. Qed.

Example extract_ex2 :
  extractBaseModelName "gpt-4-turbo-2024-04-09" = "gpt-4-turbo-2024-04-09".
Proof. reflexivity. Qed.

Example extract_ex3 : extractBaseModelName "plain-name" = "plain-name".
Proof. reflexivity. Qed.

Example extract_ex4 : extractBaseModelName "v1" = "v1".
Proof. reflexivity. Qed.

Example extract_ex5 : extractBaseModelName "-2024" = "".
Proof. reflexivity. Qed.

Example extract_ex6 : extractBaseModelName "latest-v2.0" = "latest-v2.0".
Proof. reflexivity. Qed.

Example extract_ex7 : extractBaseModelName "gpt-5-Preview-V1.2-202501" = "gpt-5".
Proof. reflexivity. Qed.

Example match_ex1 : matchWildcard "*gpt-5*" "openai-gpt-5-codex" = true.
Proof. reflexivity. Qed.

Example match_ex2 :
  matchWildcard "claude-*" "claude" = false /\ matchWildcard "claude-*" "Claude-" = true.
Proof. split; reflexivity. Qed.

Example match_ex3 : matchWildcard "a*b*c" "axxbyyc" = true.
Proof. reflexivity. Qed.

Example match_ex4 : matchWildcard "a*b" "a" = false.
Proof. reflexivity. Qed.

Example family_ex : inferModelFamily "GPT-5-codex" = "gpt" /\ inferModelFamily "llama" = "".
Proof. split; reflexivity. Qed.

(* ===================================================================== *)
(** * Facts about strings *)
(* ===================================================================== *)

Module StringFacts.

Lemma app_nil_l (s : string) : "" +:+ s = s.
Proof. reflexivity. Qed.

Lemma app_cons (c : ascii) (s t : string) :
  String c s +:+ t = String c (s +:+ t).
Proof. reflexivity. Qed.

Lemma app_nil_r (s : string) : s +:+ "" = s.
Proof. induction s as [|c s IH]; [reflexivity|]. by rewrite app_cons, IH. Qed.

Lemma app_assoc (s t u : string) : s +:+ t +:+ u = (s +:+ t) +:+ u.
Proof.
  induction s as [|c s IH]; [reflexivity|]. by rewrite !app_cons, IH.
Qed.

Lemma len_app (s t : string) : len (s +:+ t) = (len s + len t)%nat.
Proof.
  induction s as [|c s IH]; [reflexivity|]. rewrite app_cons. cbn.
  f_equal. exact IH.
Qed.

Lemma len_0 (s : string) : len s = O -> s = "".
Proof. destruct s; [reflexivity|discriminate]. Qed.

Lemma app_inv_head (s t u : string) : s +:+ t = s +:+ u -> t = u.
Proof.
  induction s as [|c s IH]; [auto|]. rewrite !app_cons.
  intros [= Heq]. auto.
Qed.

(** Two splittings of one string at the same position agree. *)
Lemma app_inj_len (s1 t1 s2 t2 : string) :
  s1 +:+ t1 = s2 +:+ t2 -> len s1 = len s2 -> s1 = s2 /\ t1 = t2.
Proof.
  revert s2. induction s1 as [|c s1 IH]; intros [|d s2]; try discriminate.
  - auto.
  - rewrite !app_cons. intros [= -> Heq] [= Hlen].
    destruct (IH _ Heq Hlen) as [-> ->]. auto.
Qed.

Lemma app_inj_len_r (s1 t1 s2 t2 : string) :
  s1 +:+ t1 = s2 +:+ t2 -> len t1 = len t2 -> s1 = s2 /\ t1 = t2.
Proof.
  intros Heq Hlen. apply app_inj_len; [exact Heq|].
  apply (f_equal len) in Heq. rewrite !len_app in Heq. lia.
Qed.

(** Of two prefixes of one string the shorter is a prefix of the longer. *)
Lemma app_eq_app_le (s1 t1 s2 t2 : string) :
  s1 +:+ t1 = s2 +:+ t2 -> (len s1 <= len s2)%nat ->
  exists w, s2 = s1 +:+ w /\ t1 = w +:+ t2.
Proof.
  unfold len. revert s2. induction s1 as [|c s1 IH]; intros s2.
  - intros Heq _. exists s2. auto.
  - destruct s2 as [|d s2]; [intros _ Hlen; cbn in Hlen; lia|].
    rewrite !app_cons. intros [= -> Heq] Hlen. cbn in Hlen.
    destruct (IH _ Heq ltac:(lia)) as [w [-> ->]].
    exists w. auto.
Qed.

Lemma sliceFrom_app (s t : string) : sliceFrom (len s) (s +:+ t) = t.
Proof. induction s as [|c s IH]; [reflexivity|exact IH]. Qed.

Lemma sliceTo_app (s t : string) : sliceTo (len s) (s +:+ t) = s.
Proof.
  induction s as [|c s IH]; [reflexivity|].
  rewrite app_cons. cbn. f_equal. exact IH.
Qed.

Lemma sliceTo_sliceFrom (n : nat) (s : string) :
  sliceTo n s +:+ sliceFrom n s = s.
Proof.
  revert s. induction n as [|n IH]; intros [|c s]; try reflexivity.
  cbn. rewrite app_cons. f_equal. apply IH.
Qed.

Lemma len_sliceTo (n : nat) (s : string) :
  (n <= len s)%nat -> len (sliceTo n s) = n.
Proof.
  unfold len. revert s. induction n as [|n IH]; intros [|c s]; cbn; try lia.
  intros Hn. f_equal. apply IH. lia.
Qed.

(** [HasPrefix] and [HasSuffix] say what their names say. *)
Lemma HasPrefix_spec (s prefix : string) :
  HasPrefix s prefix = true <-> exists r, s = prefix +:+ r.
Proof.
  revert s. induction prefix as [|a p IH]; intros s.
  - cbn. split; [intros _; exists s; reflexivity|destruct s; reflexivity].
  - destruct s as [|b s]; cbn.
    + split; [discriminate|intros [r Hr]; discriminate].
    + rewrite andb_true_iff, IH. split.
      * intros [Hab [r ->]]. apply Ascii.eqb_eq in Hab as ->.
        exists r. reflexivity.
      * intros [r Hr]. rewrite app_cons in Hr. injection Hr as -> ->.
        split; [apply Ascii.eqb_refl|]. exists r. reflexivity.
Qed.

Lemma HasSuffix_spec (s suffix : string) :
  HasSuffix s suffix = true <-> exists r, s = r +:+ suffix.
Proof.
  unfold HasSuffix. rewrite andb_true_iff, Nat.leb_le, String.eqb_eq. split.
  - intros [Hlen Heq]. exists (sliceTo (len s - len suffix) s).
    rewrite <- (sliceTo_sliceFrom (len s - len suffix) s) at 1.
    f_equal. exact Heq.
  - intros [r ->]. rewrite len_app. split; [lia|].
    replace (len r + len suffix - len suffix)%nat with (len r) by lia.
    apply sliceFrom_app.
Qed.

(** [indexOf] finds an occurrence, and the first one. *)
Lemma indexOf_Some (s sub : string) (i : nat) :
  indexOf s sub = Some i ->
  exists u v, s = u +:+ sub +:+ v /\ len u = i.
Proof.
  unfold len. revert i. induction s as [|c s IH]; intros i; cbn [indexOf].
  - destruct (HasPrefix "" sub) eqn:Hp; [|discriminate].
    intros [= <-]. apply HasPrefix_spec in Hp as [r Hr].
    exists "", r. auto.
  - destruct (HasPrefix (String c s) sub) eqn:Hp.
    + intros [= <-]. apply HasPrefix_spec in Hp as [r Hr].
      exists "", r. auto.
    + destruct (indexOf s sub) as [j|]; [|discriminate].
      intros [= <-]. destruct (IH j eq_refl) as [u [v [-> Hu]]].
      exists (String c u), v. cbn. auto.
Qed.

Lemma indexOf_first (s sub u v : string) :
  s = u +:+ sub +:+ v ->
  exists i, indexOf s sub = Some i /\ (i <= len u)%nat.
Proof.
  unfold len. revert s. induction u as [|c u IH]; intros s ->.
  - assert (HasPrefix (sub +:+ v) sub = true) as Hp
      by (apply HasPrefix_spec; exists v; reflexivity).
    rewrite app_nil_l. exists O.
    destruct (sub +:+ v); cbn [indexOf]; rewrite Hp; cbn; auto with lia.
  - rewrite app_cons. cbn [indexOf].
    destruct (HasPrefix _ sub); [exists O; cbn; auto with lia|].
    destruct (IH _ eq_refl) as [i [-> Hi]]. exists (S i). cbn. auto with lia.
Qed.

Lemma indexOf_None (s sub : string) :
  indexOf s sub = None -> forall u v, s <> u +:+ sub +:+ v.
Proof.
  intros Hnone u v Heq. destruct (indexOf_first _ _ _ _ Heq) as [i [Hi _]].
  congruence.
Qed.

End StringFacts.

(* ===================================================================== *)
(** * Base-name extraction *)
(* ===================================================================== *)

Module BaseNameFacts.

Lemma Split_nonempty (s : string) (sep : ascii) : Split s sep <> [].
Proof.
  destruct s as [|c s]; cbn; [discriminate|].
  destruct (Ascii.eqb c sep); [discriminate|].
  destruct (Split s sep); discriminate.
Qed.

Lemma Join_cons (e h : string) (t : list string) (sep : string) :
  Join (e :: h :: t) sep = e +:+ sep +:+ Join (h :: t) sep.
Proof. reflexivity. Qed.

(** Joining the pieces with the separator gives the string back. *)
Lemma Join_Split (s : string) (sep : ascii) :
  Join (Split s sep) (String sep "") = s.
Proof.
  induction s as [|c s IH]; [reflexivity|]. cbn [Split].
  pose proof (Split_nonempty s sep) as Hs.
  destruct (Split s sep) as [|h t]; [congruence|].
  destruct (Ascii.eqb_spec c sep) as [->|Hne].
  - rewrite Join_cons, IH. reflexivity.
  - destruct t as [|h' t].
    + cbn [Join] in *. rewrite IH. reflexivity.
    + rewrite Join_cons in *. rewrite <- IH. reflexivity.
Qed.

(** What the scanning loop computes from [n] down: below the cut every
    visited segment is strippable, and the segment just before the cut is
    not. *)
Lemma scanCut_spec (parts : list string) (n : nat) :
  (n <= length parts)%nat ->
  Forall (fun p => strippable p = true) (drop n parts) ->
  let k := scanCut parts n n in
  (k <= n)%nat
  /\ Forall (fun p => strippable p = true) (drop k parts)
  /\ (k = O \/ exists p, parts !! (k - 1)%nat = Some p /\ strippable p = false).
Proof.
  induction n as [|i IH]; intros Hn Hdrop; cbn [scanCut].
  - cbv zeta. split; [lia|]. split; [exact Hdrop|]. left; reflexivity.
  - destruct (lookup_lt_is_Some_2 parts i ltac:(lia)) as [p Hp].
    rewrite Hp. destruct (strippable p) eqn:Hs.
    + destruct IH as [Hk [Hf Hstop]]; [lia| |].
      * rewrite (drop_S _ _ _ Hp). constructor; assumption.
      * cbv zeta. split; [lia|]. split; assumption.
    + cbv zeta. split; [lia|]. split; [exact Hdrop|]. right.
      exists p. rewrite Nat.sub_1_r. cbn. split; assumption.
Qed.

(** [extractBaseModelName] removes the longest run of strippable segments
    at the end of the trimmed name, and keeps the name when the run covers
    every segment. *)
Lemma extractBaseModelName_spec (modelName : string) :
  exists kept stripped : list string,
    Split (TrimSpace modelName) "-" = kept ++ stripped
    /\ Forall (fun p => strippable p = true) stripped
    /\ (kept = [] \/ exists p, last kept = Some p /\ strippable p = false)
    /\ extractBaseModelName modelName
       = match kept with
         | [] => TrimSpace modelName
         | _ => Join kept "-"
         end.
Proof.
  destruct (String.eqb_spec (TrimSpace modelName) "") as [Hempty|Hname].
  { (* the empty name: one empty segment, which is not strippable *)
    exists [""], []. unfold extractBaseModelName. rewrite Hempty.
    split; [reflexivity|]. split; [constructor|].
    split; [right; exists ""; split; reflexivity|reflexivity]. }
  unfold extractBaseModelName.
  rewrite (proj2 (String.eqb_neq _ _) Hname).
  set (name := TrimSpace modelName) in *. set (parts := Split name "-").
  destruct (scanCut_spec parts (length parts) ltac:(lia)) as [Hk [Hf Hstop]].
  { rewrite drop_all. constructor. }
  set (k := scanCut parts (length parts) (length parts)) in *.
  exists (take k parts), (drop k parts).
  split; [symmetry; apply take_drop|]. split; [exact Hf|].
  assert (k = O \/ exists p, last (take k parts) = Some p /\ strippable p = false)
    as Hlast.
  { destruct Hstop as [->|[p [Hp Hs]]]; [left; reflexivity|].
    destruct k as [|k']; [left; reflexivity|]. right. exists p.
    split; [|exact Hs]. rewrite last_lookup, length_take.
    rewrite Nat.min_l by lia. cbn [Nat.pred].
    rewrite lookup_take_lt by lia.
    rewrite Nat.sub_1_r in Hp. exact Hp. }
  split.
  { destruct Hlast as [->|Hl]; [left; reflexivity|right; exact Hl]. }
  destruct (length parts <=? 1)%nat eqn:Hlen.
  - apply Nat.leb_le in Hlen.
    pose proof (Split_nonempty name "-") as Hne.
    pose proof (Join_Split name "-") as Hjoin.
    fold parts in Hne, Hjoin. clearbody k parts.
    destruct parts as [|p [|q t]]; [congruence| |cbn in Hlen; lia].
    cbn in Hjoin, Hk. destruct k as [|[|?]]; [reflexivity| |lia].
    cbn. symmetry. exact Hjoin.
  - destruct (Nat.eqb_spec k 0) as [->|Hk0]; [reflexivity|].
    destruct (take k parts) eqn:Htake; [|reflexivity].
    apply (f_equal length) in Htake. rewrite length_take in Htake.
    apply Nat.leb_gt in Hlen. cbn in Htake. lia.
Qed.

(** When the first segment of the trimmed name is not empty, the base name
    is not empty either. *)
Lemma extractBaseModelName_nonempty (modelName : string) (c : ascii)
    (s : string) :
  TrimSpace modelName = String c s -> c <> "-"%char ->
  extractBaseModelName modelName <> "".
Proof.
  intros Hname Hc.
  destruct (extractBaseModelName_spec modelName)
    as [kept [stripped [Hsplit [_ [_ ->]]]]].
  destruct kept as [|p kept]; [rewrite Hname; discriminate|].
  rewrite Hname in Hsplit. cbn [Split] in Hsplit.
  destruct (Ascii.eqb_spec c "-") as [Heq|_]; [congruence|].
  destruct (Split s "-") as [|h t].
  - injection Hsplit as <- _. destruct kept; discriminate.
  - injection Hsplit as <- _. destruct kept; discriminate.
Qed.

(** C1. The code does not do what is stated for [extractBaseModelName]:
    on ["gpt-4-turbo-2024-04-09"] the last segment ["09"] has two digits,
    is not a strippable suffix, and stops the scan at once, so the name
    comes back whole, where the statement (and the comment of the function)
    gives ["gpt-4-turbo"]; and on ["-2024"] the only segment kept is the
    empty one, so the name is reduced to the empty string. The other three
    values are as stated. *)
Theorem extractBaseModelName_dashed_date :
  extractBaseModelName "gpt-4-turbo-2024-04-09" = "gpt-4-turbo-2024-04-09"
  /\ extractBaseModelName "gpt-4-turbo-2024-04-09" <> "gpt-4-turbo"
  /\ extractBaseModelName "-2024" = ""
  /\ extractBaseModelName "claude-sonnet-20251124" = "claude-sonnet"
  /\ extractBaseModelName "plain-name" = "plain-name"
  /\ extractBaseModelName "v1" = "v1".
Proof. repeat split; vm_compute; congruence. Qed.

End BaseNameFacts.

(* ===================================================================== *)
(** * The wildcard matcher *)
(* ===================================================================== *)

Module GlobFacts.

Import Glob StringFacts.

(** ** The loop over the middle parts *)

Lemma holdsInOrder_app (middle : list string) (w v : string) :
  holdsInOrder middle v -> holdsInOrder middle (w +:+ v).
Proof.
  destruct middle as [|part rest]; [auto|].
  intros [u [v' [-> Hrest]]]. exists (w +:+ u), v'.
  split; [|exact Hrest]. apply app_assoc.
Qed.

(** Taking the first occurrence of each part loses no match. *)
Lemma matchMiddle_spec (middle : list string) (text : string) :
  matchMiddle middle text = true <-> holdsInOrder middle text.
Proof.
  revert text. induction middle as [|part rest IH]; intros text.
  - cbn. tauto.
  - cbn [matchMiddle holdsInOrder].
    destruct (String.eqb_spec part "") as [->|Hpart].
    + rewrite IH. split.
      * intros Hrest. exists "", text. auto.
      * intros [u [v [-> Hrest]]]. rewrite app_nil_l.
        apply holdsInOrder_app. exact Hrest.
    + unfold Index. destruct (indexOf text part) as [i|] eqn:Hidx.
      * assert ((Z.of_nat i <? 0) = false) as -> by (apply Z.ltb_ge; lia).
        rewrite Nat2Z.id, IH.
        destruct (indexOf_Some _ _ _ Hidx) as [u [v [Htext Hu]]].
        assert (sliceFrom (i + len part) text = v) as ->.
        { rewrite Htext, app_assoc, <- Hu, <- len_app.
          apply sliceFrom_app. }
        split.
        -- intros Hrest. exists u, v. auto.
        -- intros [u' [v' [Htext' Hrest]]].
           destruct (indexOf_first _ _ _ _ Htext') as [j [Hj Hle]].
           assert (j = i) as -> by congruence.
           rewrite Htext, !app_assoc in Htext'.
           destruct (app_eq_app_le _ _ _ _ Htext') as [w [_ ->]].
           { rewrite !len_app. lia. }
           apply holdsInOrder_app. exact Hrest.
      * cbn. split; [discriminate|].
        intros [u [v [Htext _]]].
        exfalso. exact (indexOf_None _ _ Hidx u v Htext).
Qed.

(** ** The relation of the specification, part by part *)

Lemma matches_star_any (t : string) : matches "*" t.
Proof.
  induction t as [|c t IH].
  - apply matches_star_none, matches_empty.
  - apply matches_star_more, IH.
Qed.

Lemma starFree_cons (c : ascii) (s : string) :
  starFree (String c s) = true <-> c <> "*"%char /\ starFree s = true.
Proof.
  unfold starFree. cbn. rewrite andb_true_iff, negb_true_iff, Ascii.eqb_neq.
  tauto.
Qed.

(** A pattern without [*] matches itself and nothing else. *)
Lemma matches_starFree (x t : string) :
  starFree x = true -> (matches x t <-> t = x).
Proof.
  revert t. induction x as [|c x IH]; intros t Hx.
  - split; [inversion 1; reflexivity|intros ->; constructor].
  - apply starFree_cons in Hx as [Hc Hx]. split.
    + inversion 1; subst; try congruence. f_equal. by apply IH.
    + intros ->. apply matches_byte; [exact Hc|]. by apply IH.
Qed.

(** A [*] at the head takes any prefix of the text. *)
Lemma matches_star (p t : string) :
  matches (String "*" p) t <-> exists u v, t = u +:+ v /\ matches p v.
Proof.
  split.
  - remember (String "*" p) as q eqn:Hq. induction 1 as
      [|p' t Hm _|p' c t Hm IH|c p' t Hc Hm _]; try discriminate.
    + injection Hq as ->. exists "", t. auto.
    + destruct (IH Hq) as [u [v [-> Hv]]]. exists (String c u), v. auto.
    + congruence.
  - intros [u [v [-> Hv]]]. induction u as [|c u IH].
    + apply matches_star_none. exact Hv.
    + rewrite app_cons. apply matches_star_more. exact IH.
Qed.

(** Before its first [*] a pattern is matched byte by byte. *)
Lemma matches_prefix (x p t : string) :
  starFree x = true ->
  matches (x +:+ String "*" p) t
  <-> exists u, t = x +:+ u /\ matches (String "*" p) u.
Proof.
  revert t. induction x as [|c x IH]; intros t Hx.
  - rewrite app_nil_l. split; [intros Hm; exists t; auto|].
    intros [u [-> Hu]]. exact Hu.
  - apply starFree_cons in Hx as [Hc Hx]. rewrite app_cons. split.
    + inversion 1; subst; try congruence.
      match goal with Hm : matches (x +:+ _) _ |- _ =>
        apply IH in Hm as [u [-> Hu]]; [|exact Hx] end.
      exists u. auto.
    + intros [u [-> Hu]]. rewrite app_cons.
      apply matches_byte; [exact Hc|]. apply IH; [exact Hx|]. eauto.
Qed.

(** The pattern [* m1 * ... * mk * last]. *)
Lemma matches_star_parts (middle : list string) (last r : string) :
  Forall (fun part => starFree part = true) middle ->
  starFree last = true ->
  matches (String "*" (Join (middle ++ [last]) "*")) r
  <-> exists r', r = r' +:+ last /\ holdsInOrder middle r'.
Proof.
  intros Hmiddle Hlast. revert r.
  induction Hmiddle as [|part rest Hpart _ IH]; intros r.
  - cbn [app Join holdsInOrder]. rewrite matches_star. split.
    + intros [u [v [-> Hv]]]. apply matches_starFree in Hv as ->; eauto.
    + intros [r' [-> _]]. exists r', last.
      split; [reflexivity|]. by apply matches_starFree.
  - assert (exists J, Join ((part :: rest) ++ [last]) "*"
                      = part +:+ String "*" J
                      /\ J = Join (rest ++ [last]) "*") as [J [-> HJ]].
    { eexists; split; [|reflexivity].
      destruct rest; reflexivity. }
    rewrite matches_star. subst J. split.
    + intros [u [v [-> Hv]]].
      apply matches_prefix in Hv as [w [-> Hw]]; [|exact Hpart].
      apply IH in Hw as [r'' [-> Hr'']].
      exists (u +:+ part +:+ r''). split.
      * rewrite <- !app_assoc. reflexivity.
      * exists u, r''. auto.
    + intros [r' [-> [u [v [-> Hv]]]]].
      exists u, (part +:+ v +:+ last). split.
      * rewrite <- !app_assoc. reflexivity.
      * apply matches_prefix; [exact Hpart|].
        exists (v +:+ last). split; [reflexivity|]. apply IH. eauto.
Qed.

(** The pattern [first * m1 * ... * mk * last]. *)
Lemma matches_parts (first : string) (middle : list string)
    (last t : string) :
  starFree first = true ->
  Forall (fun part => starFree part = true) middle ->
  starFree last = true ->
  matches (Join (first :: middle ++ [last]) "*") t
  <-> exists r', t = first +:+ r' +:+ last /\ holdsInOrder middle r'.
Proof.
  intros Hfirst Hmiddle Hlast.
  assert (Join (first :: middle ++ [last]) "*"
          = first +:+ String "*" (Join (middle ++ [last]) "*")) as ->
    by (destruct middle; reflexivity).
  rewrite matches_prefix by exact Hfirst. split.
  - intros [u [-> Hu]].
    apply matches_star_parts in Hu as [r' [-> Hr']]; eauto.
  - intros [r' [-> Hr']]. exists (r' +:+ last).
    split; [reflexivity|]. apply matches_star_parts; eauto.
Qed.

(** ** What [Split] makes of a pattern *)

Lemma Split_starFree (p : string) :
  Forall (fun part => starFree part = true) (Split p "*").
Proof.
  induction p as [|c p IH]; cbn [Split]; [repeat constructor|].
  destruct (Ascii.eqb_spec c "*") as [->|Hc].
  - constructor; [reflexivity|exact IH].
  - destruct (Split p "*") as [|h t]; [repeat constructor|].
    + apply starFree_cons. auto.
    + apply Forall_cons in IH as [Hh Ht]. constructor; [|exact Ht].
      apply starFree_cons. auto.
Qed.

Lemma indexOf_star (p : string) :
  indexOf p "*" = None <-> starFree p = true.
Proof.
  induction p as [|c p IH]; [cbn; tauto|].
  rewrite starFree_cons. cbn [indexOf HasPrefix].
  rewrite andb_true_r. destruct (Ascii.eqb_spec "*" c) as [<-|Hc].
  - split; [discriminate|tauto].
  - destruct (indexOf p "*"); cbn.
    + split; [discriminate|]. intros [_ Hp]. apply IH in Hp. discriminate.
    + split; [|reflexivity]. intros _. split; [congruence|]. by apply IH.
Qed.

Lemma Contains_star (p : string) : Contains p "*" = negb (starFree p).
Proof.
  unfold Contains, Index. destruct (indexOf p "*") as [i|] eqn:Hi.
  - destruct (starFree p) eqn:Hp.
    + apply indexOf_star in Hp. congruence.
    + cbn. apply Z.leb_le. lia.
  - apply indexOf_star in Hi as ->. reflexivity.
Qed.

(** A pattern with a [*] splits into a first part, middle parts and a last
    part. *)
Lemma Split_parts (p : string) :
  starFree p = false ->
  exists first middle last, Split p "*" = first :: middle ++ [last].
Proof.
  induction p as [|c p IH]; [discriminate|]. intros Hp. cbn [Split].
  destruct (Ascii.eqb_spec c "*") as [->|Hc].
  - pose proof (BaseNameFacts.Split_nonempty p "*") as Hne.
    destruct (exists_last Hne) as [middle [last ->]].
    exists "", middle, last. reflexivity.
  - destruct IH as [first [middle [last ->]]].
    + destruct (starFree p) eqn:Hp'; [|reflexivity].
      assert (starFree (String c p) = true)
        by (apply starFree_cons; auto).
      congruence.
    + eexists _, middle, last. reflexivity.
Qed.

Lemma parts_first (first last : string) (middle : list string) :
  nth 0 (first :: middle ++ [last]) "" = first.
Proof. reflexivity. Qed.

Lemma parts_last (first last : string) (middle : list string) :
  nth (length (first :: middle ++ [last]) - 1) (first :: middle ++ [last]) ""
  = last.
Proof.
  cbn [length]. rewrite Nat.sub_1_r. cbn [Nat.pred].
  change (first :: middle ++ [last]) with ([first] ++ middle ++ [last]).
  rewrite List.app_assoc, length_app. cbn [length].
  replace (length middle + 1)%nat with (length ([first] ++ middle) + 0)%nat
    by (cbn [length app]; lia).
  rewrite app_nth2_plus. reflexivity.
Qed.

Lemma parts_middle (first last : string) (middle : list string) :
  middleParts (first :: middle ++ [last]) = middle.
Proof.
  unfold middleParts. cbn [length drop]. rewrite length_app. cbn [length].
  replace (S (length middle + 1) - 2)%nat with (length middle) by lia.
  apply take_app_length.
Qed.

(** ** The matcher *)

(** The prefix test, the suffix test and the loop, on the parts of a
    pattern. *)
Lemma matchParts_spec (first last : string) (middle : list string)
    (t : string) :
  (if (negb (String.eqb first "") && negb (HasPrefix t first))%bool
   then false
   else
     let text := sliceFrom (len first) t in
     if (negb (String.eqb last "") && negb (HasSuffix text last))%bool
     then false
     else
       let text :=
         if negb (String.eqb last "")
         then sliceTo (len text - len last) text
         else text in
       matchMiddle middle text) = true
  <-> exists r', t = first +:+ r' +:+ last /\ holdsInOrder middle r'.
Proof.
  destruct (HasPrefix t first) eqn:Hp.
  - rewrite andb_false_r. cbv zeta.
    apply HasPrefix_spec in Hp as [r ->]. rewrite sliceFrom_app.
    destruct (HasSuffix r last) eqn:Hs.
    + rewrite andb_false_r. apply HasSuffix_spec in Hs as [r0 ->].
      assert ((if negb (String.eqb last "")
               then sliceTo (len (r0 +:+ last) - len last) (r0 +:+ last)
               else r0 +:+ last) = r0) as ->.
      { destruct (String.eqb_spec last "") as [->|_]; cbn [negb].
        - apply app_nil_r.
        - rewrite len_app.
          replace (len r0 + len last - len last)%nat with (len r0) by lia.
          apply sliceTo_app. }
      rewrite matchMiddle_spec. split.
      * intros Hr0. exists r0. auto.
      * intros [r' [Heq Hr']]. apply app_inv_head in Heq.
        apply app_inj_len_r in Heq as [-> _]; [exact Hr'|reflexivity].
    + destruct (String.eqb_spec last "") as [->|_]; cbn [negb andb].
      * assert (HasSuffix r "" = true) as Hs'
          by (apply HasSuffix_spec; exists r; symmetry; apply app_nil_r).
        congruence.
      * split; [discriminate|]. intros [r' [Heq _]].
        apply app_inv_head in Heq.
        assert (HasSuffix r last = true) as Hs'
          by (apply HasSuffix_spec; eauto).
        congruence.
  - destruct (String.eqb_spec first "") as [->|_]; cbn [negb andb].
    + destruct t; discriminate.
    + split; [discriminate|]. intros [r' [Heq _]].
      assert (HasPrefix t first = true) as Hp'
        by (apply HasPrefix_spec; eauto).
      congruence.
Qed.

(** [matchWildcard] decides the relation of the specification on the
    lower-case forms of pattern and text. *)
Lemma matchWildcard_spec (pattern text : string) :
  matchWildcard pattern text = true
  <-> matches (ToLower pattern) (ToLower text).
Proof.
  unfold matchWildcard.
  set (p := ToLower pattern). set (t := ToLower text).
  destruct (String.eqb_spec p "*") as [->|Hstar].
  { split; [intros _; apply matches_star_any|reflexivity]. }
  destruct (String.eqb_spec p "") as [->|Hempty].
  { rewrite String.eqb_eq, (matches_starFree "" t) by reflexivity. tauto. }
  rewrite Contains_star, negb_involutive.
  destruct (starFree p) eqn:Hfree.
  { rewrite String.eqb_eq, (matches_starFree p t) by exact Hfree.
    split; congruence. }
  pose proof (Split_starFree p) as Hparts.
  pose proof (BaseNameFacts.Join_Split p "*") as Hjoin.
  destruct (Split_parts p Hfree) as [first [middle [last Hsplit]]].
  rewrite Hsplit in *.
  rewrite parts_first, parts_last, parts_middle.
  cbn [length Nat.eqb]. rewrite matchParts_spec.
  apply Forall_cons in Hparts as [Hfirst Hrest].
  apply Forall_app in Hrest as [Hmiddle Hlast].
  apply Forall_cons in Hlast as [Hlast _].
  rewrite <- Hjoin. symmetry. apply matches_parts; assumption.
Qed.

Lemma lowerByte_idem (c : ascii) : lowerByte (lowerByte c) = lowerByte c.
Proof. destruct c as [[] [] [] [] [] [] [] []]; reflexivity. Qed.

Lemma ToLower_idem (s : string) : ToLower (ToLower s) = ToLower s.
Proof.
  induction s as [|c s IH]; [reflexivity|]. cbn.
  rewrite lowerByte_idem, IH. reflexivity.
Qed.

(** C2, as the code has it. [matchWildcard] compares pattern and text
    without regard to case, with [*] as the only special token, matching
    zero or more characters: it answers [true] exactly when the lower-case
    text matches the lower-case pattern in that sense. It matches
    ["openai-gpt-5-codex"] against ["*gpt-5*"] and ["axxbyyc"] against
    ["a*b*c"]; it does not match ["a"] against ["a*b"]; and it does not
    match ["claude"] against ["claude-*"], whose prefix ["claude-"] the
    text lacks, while it matches ["claude-"] and ["claude"] against
    ["claude*"]. *)
Theorem matchWildcard_contract :
  (forall pattern text,
     matchWildcard pattern text = true
     <-> matches (ToLower pattern) (ToLower text))
  /\ (forall pattern text pattern' text',
        ToLower pattern = ToLower pattern' -> ToLower text = ToLower text' ->
        matchWildcard pattern text = matchWildcard pattern' text')
  /\ matchWildcard "*gpt-5*" "openai-gpt-5-codex" = true
  /\ matchWildcard "claude-*" "claude" = false
  /\ matchWildcard "claude-*" "claude-" = true
  /\ matchWildcard "claude*" "claude" = true
  /\ matchWildcard "a*b*c" "axxbyyc" = true
  /\ matchWildcard "a*b" "a" = false.
Proof.
  split; [exact matchWildcard_spec|]. split; [|repeat split].
  intros pattern text pattern' text' Hp Ht.
  unfold matchWildcard. rewrite Hp, Ht. reflexivity.
Qed.

(** Two spellings of one pattern and one text. *)
Lemma matchWildcard_contract_witness :
  matchWildcard "*GPT-5*" "OpenAI-gpt-5-Codex"
  = matchWildcard "*gpt-5*" "openai-gpt-5-codex".
Proof.
  apply (proj1 (proj2 matchWildcard_contract)); reflexivity.
Defined.

(** C2 fails as stated: the matcher rejects ["claude"] for the pattern
    ["claude-*"], and so does the relation of the specification. *)
Lemma matchWildcard_counterexample :
  matchWildcard "claude-*" "claude" <> true
  /\ ~ matches (ToLower "claude-*") (ToLower "claude").
Proof.
  assert (matchWildcard "claude-*" "claude" <> true) as Hno
    by (vm_compute; discriminate).
  split; [exact Hno|]. intros Hm. apply Hno, matchWildcard_spec, Hm.
Qed.

End GlobFacts.

(* ===================================================================== *)
(** * The candidate router *)
(* ===================================================================== *)

Module RouterFacts.

Import Config Router.

Lemma eqb_string_false (a b : string) : a <> b -> String.eqb a b = false.
Proof. intros Hne. apply String.eqb_neq. exact Hne. Qed.

(** The cached model heads the list and does not occur again. *)
Lemma cachedFirst_once (cached : string) (l : list string) :
  exists rest, cachedFirst cached l = cached :: rest /\ ~ In cached rest.
Proof.
  eexists; split; [reflexivity|].
  intros Hin%filter_In. destruct Hin as [_ Hneq].
  rewrite String.eqb_refl in Hneq. discriminate.
Qed.

(** The elements of [l] other than the cached model keep their order. *)
Lemma cachedFirst_keeps (cached : string) (l : list string) :
  ~ In cached l -> cachedFirst cached l = cached :: l.
Proof.
  intros Hnin. unfold cachedFirst. f_equal.
  induction l as [|x l IH]; [reflexivity|]. cbn.
  rewrite eqb_string_false by (intros ->; apply Hnin; left; reflexivity).
  cbn. f_equal. apply IH. intros Hin. apply Hnin. right. exact Hin.
Qed.

Lemma RouteCache_Get_Set (c : RouteCache.t) (v a : string) :
  RouteCache.Get (RouteCache.Set_ c v a) v = a.
Proof. unfold RouteCache.Get, RouteCache.Set_; cbn. by rewrite lookup_insert_eq. Qed.

Lemma RouteCache_Get_Set_ne (c : RouteCache.t) (v w a : string) :
  v <> w -> RouteCache.Get (RouteCache.Set_ c v a) w = RouteCache.Get c w.
Proof.
  intros Hne. unfold RouteCache.Get, RouteCache.Set_; cbn.
  by rewrite lookup_insert_ne.
Qed.

Section WithCollaborators.
Context `{Collaborators}.

(** An enabled router has a cache: [UpdateConfig] is the only writer of
    the configuration, and it binds the cache whenever it enables
    routing. *)
Lemma UpdateConfig_cache (r : ModelRouter) (c : option ModelRoutingConfig)
    (authDir : string) :
  IsEnabled (UpdateConfig r c authDir) = true ->
  cache (UpdateConfig r c authDir) <> None.
Proof.
  unfold UpdateConfig, IsEnabled. destruct c as [c|]; cbn.
  - destruct (Enabled c) eqn:Hen; cbn.
    + destruct (foldl indexStep (∅, []) (Routes c)); cbn. discriminate.
    + rewrite Hen. discriminate.
  - discriminate.
Qed.

Lemma NewModelRouter_cache (c : option ModelRoutingConfig)
    (authDir : string) :
  IsEnabled (NewModelRouter c authDir) = true ->
  cache (NewModelRouter c authDir) <> None.
Proof.
  unfold NewModelRouter. destruct c as [c|]; cbn [isNil negb].
  - apply UpdateConfig_cache.
  - discriminate.
Qed.

(** [RecordSuccess] touches the cache only. *)
Lemma RecordSuccess_frame (r : ModelRouter) (v a : string) :
  cfg (RecordSuccess r v a) = cfg r
  /\ routes (RecordSuccess r v a) = routes r
  /\ fuzzy (RecordSuccess r v a) = fuzzy r.
Proof.
  unfold RecordSuccess.
  destruct (negb (IsEnabled r)); [auto|]. destruct (cache r); auto.
Qed.

Lemma RecordSuccess_cache (r : ModelRouter) (c : RouteCache.t)
    (v a : string) :
  IsEnabled r = true -> cache r = Some c ->
  cache (RecordSuccess r v a) = Some (RouteCache.Set_ c v a).
Proof.
  intros Hen Hc. unfold RecordSuccess. rewrite Hen, Hc. reflexivity.
Qed.

(** The three shapes of the answer of [GetCandidates] when the cache
    knows the model. *)
Lemma GetCandidates_cached (r : ModelRouter) (c : RouteCache.t)
    (modelName : string) :
  IsEnabled r = true ->
  TrimSpace modelName <> "" ->
  cache r = Some c ->
  RouteCache.Get c (TrimSpace modelName) <> "" ->
  GetCandidates r modelName
  = let cached := RouteCache.Get c (TrimSpace modelName) in
    match findRouteEntry r (TrimSpace modelName) with
    | Some entry => cachedFirst cached (Candidates entry)
    | None =>
        match autoSearchModels r (TrimSpace modelName) with
        | [] => [cached]
        | autoResults => cachedFirst cached autoResults
        end
    end.
Proof.
  intros Hen Hname Hc Hcached. unfold GetCandidates.
  rewrite Hen, Hc; cbn [negb isNil andb].
  rewrite !eqb_string_false by assumption. cbn [negb].
  destruct (findRouteEntry r (TrimSpace modelName)); [reflexivity|].
  destruct (autoSearchModels r (TrimSpace modelName)); reflexivity.
Qed.

(** The answer of [GetCandidates] when the cache does not know the
    model. *)
Lemma GetCandidates_uncached (r : ModelRouter) (modelName : string) :
  IsEnabled r = true ->
  TrimSpace modelName <> "" ->
  from_option (fun c => RouteCache.Get c (TrimSpace modelName)) "" (cache r)
  = "" ->
  GetCandidates r modelName
  = match findRouteEntry r (TrimSpace modelName) with
    | Some entry => Candidates entry
    | None =>
        if from_option AutoSearch false (cfg r)
        then autoSearchModels r (TrimSpace modelName)
        else []
    end.
Proof.
  intros Hen Hname Hmiss. unfold GetCandidates.
  rewrite Hen; cbn [negb]. rewrite eqb_string_false by assumption.
  assert ((negb (isNil (cache r))
           && negb (String.eqb
                      match cache r with
                      | Some c => RouteCache.Get c (TrimSpace modelName)
                      | None => ""
                      end ""))%bool = false) as ->.
  { destruct (cache r); cbn in *; [|reflexivity].
    rewrite Hmiss. reflexivity. }
  destruct (findRouteEntry r (TrimSpace modelName)); [reflexivity|].
  unfold IsEnabled in Hen. destruct (cfg r); [reflexivity|discriminate].
Qed.

(** The [AutoSearch] flag is read by [GetCandidates] alone. *)
Lemma withAutoSearch_frame (b : bool) (r : ModelRouter) (modelName : string) :
  IsEnabled (withAutoSearch b r) = IsEnabled r
  /\ cache (withAutoSearch b r) = cache r
  /\ findRouteEntry (withAutoSearch b r) modelName = findRouteEntry r modelName
  /\ autoSearchModels (withAutoSearch b r) modelName
     = autoSearchModels r modelName
  /\ from_option AutoSearch false (cfg (withAutoSearch b r))
     = (IsEnabled r || negb (isNil (cfg r)))%bool && b.
Proof.
  unfold IsEnabled, withAutoSearch, findRouteEntry, autoSearchModels,
    sortCandidatesByProviderPriority, priorityListOf; cbn.
  destruct (cfg r) as [c|]; cbn; repeat split.
  destruct (Enabled c); reflexivity.
Qed.

(** The router after a run of [RecordSuccess] calls for other virtual
    models: the configuration and the rules are the same, and the cache
    still answers [a] for [v]. *)
Lemma recordAll_keeps (r : ModelRouter) (c : RouteCache.t) (v a : string)
    (later : list (string * string)) :
  IsEnabled r = true ->
  cache r = Some c ->
  RouteCache.Get c v = a ->
  Forall (fun call => call.1 <> v) later ->
  cfg (recordAll r later) = cfg r
  /\ routes (recordAll r later) = routes r
  /\ fuzzy (recordAll r later) = fuzzy r
  /\ exists c', cache (recordAll r later) = Some c' /\ RouteCache.Get c' v = a.
Proof.
  intros Hen Hc Hget Hlater. revert r c Hen Hc Hget.
  induction Hlater as [|[w b] later Hw _ IH]; intros r c Hen Hc Hget.
  - cbn. repeat split. exists c. auto.
  - change (recordAll r ((w, b) :: later))
      with (recordAll (RecordSuccess r w b) later).
    cbn [fst] in Hw.
    destruct (RecordSuccess_frame r w b) as [Hcfg [Hroutes Hfuzzy]].
    destruct (IH (RecordSuccess r w b) (RouteCache.Set_ c w b))
      as [Hcfg' [Hroutes' [Hfuzzy' Hcache']]].
    + unfold IsEnabled. rewrite Hcfg. exact Hen.
    + apply RecordSuccess_cache; assumption.
    + rewrite RouteCache_Get_Set_ne by exact Hw. exact Hget.
    + rewrite Hcfg', Hroutes', Hfuzzy'. auto.
Qed.

(** C3, as the code has it. For every virtual model [v] that is not empty
    and carries no white space at either end, and every model [a] that is
    not empty: after [RecordSuccess(v, a)] on an enabled router, and after
    any later [RecordSuccess] calls for other virtual models,
    [GetCandidates(v)] returns a list that starts with [a] and holds [a]
    nowhere else; what follows [a] is the candidates of the matching rule
    or, without a rule, the result of auto-discovery (possibly nothing),
    the occurrences of [a] removed. *)
Theorem cache_precedence (r : ModelRouter) (v a : string)
    (later : list (string * string)) :
  IsEnabled r = true ->
  cache r <> None ->
  v <> "" ->
  TrimSpace v = v ->
  a <> "" ->
  Forall (fun call => call.1 <> v) later ->
  exists rest,
    GetCandidates (recordAll (RecordSuccess r v a) later) v = a :: rest
    /\ ~ In a rest
    /\ rest = List.filter (fun c => negb (String.eqb c a))
                match findRouteEntry r v with
                | Some entry => Candidates entry
                | None => autoSearchModels r v
                end.
Proof.
  intros Hen Hcache Hv Htrim Ha Hlater.
  destruct (cache r) as [c|] eqn:Hc; [clear Hcache|congruence].
  destruct (RecordSuccess_frame r v a) as [Hcfg [Hroutes Hfuzzy]].
  pose proof (RecordSuccess_cache r c v a Hen Hc) as Hc1.
  assert (IsEnabled (RecordSuccess r v a) = true) as Hen1
    by (unfold IsEnabled; rewrite Hcfg; exact Hen).
  destruct (recordAll_keeps _ _ v a later Hen1 Hc1
              (RouteCache_Get_Set c v a) Hlater)
    as [Hcfg' [Hroutes' [Hfuzzy' [c' [Hc' Hget]]]]].
  set (r' := recordAll (RecordSuccess r v a) later) in *.
  assert (IsEnabled r' = true) as Hen'
    by (unfold IsEnabled; rewrite Hcfg', Hcfg; exact Hen).
  assert (findRouteEntry r' v = findRouteEntry r v) as Hfind
    by (unfold findRouteEntry;
        rewrite Hroutes', Hfuzzy', Hroutes, Hfuzzy; reflexivity).
  assert (autoSearchModels r' v = autoSearchModels r v) as Hauto
    by (unfold autoSearchModels, sortCandidatesByProviderPriority,
          priorityListOf; rewrite Hcfg', Hcfg; reflexivity).
  rewrite (GetCandidates_cached r' c' v Hen' ltac:(rewrite Htrim; exact Hv) Hc')
    by (rewrite Htrim, Hget; exact Ha).
  cbv zeta. rewrite Htrim, Hget, Hfind, Hauto.
  destruct (findRouteEntry r v) as [entry|].
  - eexists; split; [reflexivity|]. split; [|reflexivity].
    destruct (cachedFirst_once a (Candidates entry)) as [rest [Heq Hnin]].
    injection Heq as <-. exact Hnin.
  - destruct (autoSearchModels r v) as [|m ms] eqn:Hms.
    + exists []. repeat split. intros [].
    + eexists; split; [reflexivity|]. split; [|reflexivity].
      destruct (cachedFirst_once a (m :: ms)) as [rest [Heq Hnin]].
      injection Heq as <-. exact Hnin.
Qed.

(** C8. When the cache holds a model for the requested name and no rule
    matches, [GetCandidates] runs auto-discovery and puts its results, the
    cached model removed, after the cached model, whether the [AutoSearch]
    flag is set or not; when the cache holds nothing and no rule matches,
    auto-discovery runs only if the flag is set. *)
Theorem auto_search_gate (r : ModelRouter) (modelName : string) :
  IsEnabled r = true ->
  TrimSpace modelName <> "" ->
  findRouteEntry r (TrimSpace modelName) = None ->
  let name := TrimSpace modelName in
  let cached := from_option (fun c => RouteCache.Get c name) "" (cache r) in
  (cached <> "" ->
   forall flag : bool,
     GetCandidates (withAutoSearch flag r) modelName
     = cached :: List.filter (fun m => negb (String.eqb m cached))
                             (autoSearchModels r name))
  /\ (cached = "" ->
      GetCandidates (withAutoSearch true r) modelName = autoSearchModels r name
      /\ GetCandidates (withAutoSearch false r) modelName = []).
Proof.
  intros Hen Hname Hfind; cbv zeta.
  assert (forall flag, IsEnabled (withAutoSearch flag r) = true) as Hen'
    by (intros flag;
        rewrite (proj1 (withAutoSearch_frame flag r modelName)); exact Hen).
  split.
  - intros Hcached flag.
    destruct (withAutoSearch_frame flag r (TrimSpace modelName))
      as [_ [Hc [Hf [Ha _]]]].
    destruct (cache r) as [c|] eqn:Hcache;
      [|exfalso; apply Hcached; reflexivity].
    cbn [from_option] in *.
    rewrite (GetCandidates_cached _ c modelName (Hen' flag) Hname Hc Hcached).
    cbv zeta. rewrite Hf, Ha, Hfind.
    destruct (autoSearchModels r (TrimSpace modelName)); reflexivity.
  - intros Hmiss. split.
    + destruct (withAutoSearch_frame true r (TrimSpace modelName))
        as [_ [Hc [Hf [Ha Hflag]]]].
      rewrite (GetCandidates_uncached _ modelName (Hen' true) Hname)
        by (rewrite Hc; exact Hmiss).
      rewrite Hf, Ha, Hflag, Hen, Hfind. reflexivity.
    + destruct (withAutoSearch_frame false r (TrimSpace modelName))
        as [_ [Hc [Hf [Ha Hflag]]]].
      rewrite (GetCandidates_uncached _ modelName (Hen' false) Hname)
        by (rewrite Hc; exact Hmiss).
      rewrite Hf, Hflag, Hen, Hfind. reflexivity.
Qed.

End WithCollaborators.

Import Demo.

(** C3 fails as stated: for the empty virtual model, and for one with
    white space around it, [GetCandidates] after [RecordSuccess] returns
    nothing on an enabled router; and an empty model recorded for
    ["gpt-x"] is not what the list starts with. *)
Lemma cache_precedence_counterexample :
  IsEnabled (router true) = true
  /\ GetCandidates (RecordSuccess (router true) "" "gpt-x-2024-08") "" = []
  /\ GetCandidates (RecordSuccess (router true) " zz " "gpt-x-2024-08") " zz "
     = []
  /\ GetCandidates (RecordSuccess (router true) "gpt-x" "") "gpt-x"
     = ["gpt-x-2024-08"; "gpt-x-mini"].
Proof. repeat split; vm_compute; reflexivity. Qed.

Lemma cache_precedence_witness :
  exists rest,
    GetCandidates
      (recordAll (RecordSuccess (router false) "gpt-x" "gpt-x-2024-08")
                 [("use-fast-tier", "model-b")])
      "gpt-x"
    = "gpt-x-2024-08" :: rest
    /\ ~ In "gpt-x-2024-08" rest
    /\ rest = List.filter (fun c => negb (String.eqb c "gpt-x-2024-08"))
                match findRouteEntry (router false) "gpt-x" with
                | Some entry => Candidates entry
                | None => autoSearchModels (router false) "gpt-x"
                end.
Proof.
  apply (cache_precedence (router false) "gpt-x" "gpt-x-2024-08"
           [("use-fast-tier", "model-b")]).
  - reflexivity.
  - discriminate.
  - discriminate.
  - reflexivity.
  - discriminate.
  - repeat constructor. discriminate.
Defined.

Lemma auto_search_gate_witness :
  (forall flag : bool,
     GetCandidates
       (withAutoSearch flag (RecordSuccess (router false) "gpt-x" "gpt-x-mini"))
       "gpt-x"
     = "gpt-x-mini"
       :: List.filter (fun m => negb (String.eqb m "gpt-x-mini"))
            (autoSearchModels
               (RecordSuccess (router false) "gpt-x" "gpt-x-mini") "gpt-x"))
  /\ GetCandidates (withAutoSearch true (router false)) "gpt-x"
     = autoSearchModels (router false) "gpt-x"
  /\ GetCandidates (withAutoSearch false (router false)) "gpt-x" = [].
Proof.
  split.
  - apply (auto_search_gate
             (RecordSuccess (router false) "gpt-x" "gpt-x-mini") "gpt-x");
      [reflexivity|discriminate|reflexivity|discriminate].
  - apply (auto_search_gate (router false) "gpt-x");
      [reflexivity|discriminate|reflexivity|reflexivity].
Defined.

End RouterFacts.

Module DemoFacts.

Import Router Demo.

Example demo_rule :
  GetCandidates (Demo.router false) "use-fast-tier" = ["model-a"; "model-b"].
Proof. vm_compute. reflexivity. Qed.

Example demo_rule_cached :
  GetCandidates
    (RecordSuccess (Demo.router false) "use-fast-tier" "model-b")
    "use-fast-tier" = ["model-b"; "model-a"].
Proof. vm_compute. reflexivity. Qed.

Example demo_auto :
  GetCandidates (Demo.router true) "gpt-x" = ["gpt-x-2024-08"; "gpt-x-mini"]
  /\ GetCandidates (Demo.router false) "gpt-x" = [].
Proof. split; vm_compute; reflexivity. Qed.

Example demo_auto_cached :
  GetCandidates
    (RecordSuccess (Demo.router false) "gpt-x" "gpt-x-mini") "gpt-x"
  = ["gpt-x-mini"; "gpt-x-2024-08"].
Proof. vm_compute. reflexivity. Qed.

End DemoFacts.

(* ===================================================================== *)
(** * Stable sorting by an integer key *)
(* ===================================================================== *)

Module SortFacts.

Import Router.

Section ByKey.
Context {A : Type} (key : A -> Z).

Abbreviation ins := (insertStable (lessBy key)).
Abbreviation sort := (SliceStable (lessBy key)).
Abbreviation sortedBy := (sortedBy key).

Lemma insertStable_ge (x : A) (l : list A) :
  Forall (fun y => key x <= key y) l -> ins x l = x :: l.
Proof.
  intros Hl. destruct l as [|y l]; [reflexivity|]. cbn. unfold lessBy.
  apply Forall_cons in Hl as [Hy _].
  destruct (key y <? key x) eqn:E; [apply Z.ltb_lt in E; lia|reflexivity].
Qed.

Lemma insertStable_app_lt (x : A) (l1 l2 : list A) :
  Forall (fun y => key y < key x) l1 -> ins x (l1 ++ l2) = l1 ++ ins x l2.
Proof.
  induction 1 as [|y l1 Hy _ IH]; [reflexivity|]. cbn. unfold lessBy at 1.
  apply Z.ltb_lt in Hy. rewrite Hy, IH. reflexivity.
Qed.

Lemma insertStable_app_ge (x : A) (l1 l2 : list A) :
  Forall (fun y => key x <= key y) l2 -> ins x (l1 ++ l2) = ins x l1 ++ l2.
Proof.
  intros Hl2. induction l1 as [|y l1 IH]; cbn.
  - apply insertStable_ge. exact Hl2.
  - destruct (lessBy key y x); [rewrite IH|]; reflexivity.
Qed.

Lemma insertStable_Permutation (x : A) (l : list A) :
  Permutation (ins x l) (x :: l).
Proof.
  induction l as [|y l IH]; cbn; [reflexivity|].
  destruct (lessBy key y x); [|reflexivity].
  rewrite IH. apply perm_swap.
Qed.

(** The sorted list is a rearrangement of the input. *)
Lemma SliceStable_Permutation (l : list A) : Permutation (sort l) l.
Proof.
  induction l as [|x l IH]; cbn; [reflexivity|].
  rewrite insertStable_Permutation, IH. reflexivity.
Qed.

Lemma SliceStable_Forall (P : A -> Prop) (l : list A) :
  Forall P l -> Forall P (sort l).
Proof. intros Hl. rewrite SliceStable_Permutation. exact Hl. Qed.

Lemma insertStable_sorted (x : A) (l : list A) :
  sortedBy l -> sortedBy (ins x l).
Proof.
  unfold Router.sortedBy. induction 1 as [|y l Hs IH Hy]; cbn.
  - repeat constructor.
  - unfold lessBy at 1. destruct (key y <? key x) eqn:E.
    + apply Z.ltb_lt in E. constructor; [exact IH|].
      rewrite insertStable_Permutation. constructor; [lia|exact Hy].
    + apply Z.ltb_ge in E. constructor; [constructor; assumption|].
      constructor; [exact E|].
      eapply Forall_impl; [exact Hy|]. cbn. intros z Hz. lia.
Qed.

Lemma SliceStable_sorted (l : list A) : sortedBy (sort l).
Proof.
  induction l as [|x l IH]; cbn; [constructor|].
  apply insertStable_sorted. exact IH.
Qed.

(** Stability: the elements of any one key keep their order. *)
Lemma insertStable_stable (k : Z) (x : A) (l : list A) :
  sortedBy l ->
  List.filter (fun y => key y =? k) (ins x l)
  = List.filter (fun y => key y =? k) (x :: l).
Proof.
  unfold Router.sortedBy. induction 1 as [|y l Hs IH Hy]; [reflexivity|].
  cbn [insertStable]. unfold lessBy at 1.
  destruct (key y <? key x) eqn:E; [|reflexivity].
  apply Z.ltb_lt in E. cbn [List.filter] in *. rewrite IH.
  destruct (key y =? k) eqn:Ey, (key x =? k) eqn:Ex; try reflexivity.
  apply Z.eqb_eq in Ey, Ex. lia.
Qed.

Lemma SliceStable_stable (k : Z) (l : list A) :
  List.filter (fun y => key y =? k) (sort l)
  = List.filter (fun y => key y =? k) l.
Proof.
  induction l as [|x l IH]; [reflexivity|]. cbn [SliceStable].
  rewrite insertStable_stable by apply SliceStable_sorted.
  cbn [List.filter]. rewrite IH. reflexivity.
Qed.

(** A list of one key is left as it is. *)
Lemma SliceStable_const (k : Z) (l : list A) :
  Forall (fun y => key y = k) l -> sort l = l.
Proof.
  induction 1 as [|x l Hx Hl IH]; [reflexivity|]. cbn. rewrite IH.
  apply insertStable_ge. eapply Forall_impl; [exact Hl|].
  cbn. intros y Hy. lia.
Qed.

(** Sorting splits at any threshold: the elements below it, sorted, then
    the others, sorted. *)
Lemma SliceStable_split (t : Z) (l : list A) :
  sort l = sort (List.filter (fun y => key y <? t) l)
           ++ sort (List.filter (fun y => t <=? key y) l).
Proof.
  induction l as [|x l IH]; [reflexivity|]. cbn [SliceStable List.filter].
  rewrite IH.
  destruct (key x <? t) eqn:Elt.
  - apply Z.ltb_lt in Elt.
    assert ((t <=? key x) = false) as -> by (apply Z.leb_gt; exact Elt).
    cbn [SliceStable]. apply insertStable_app_ge.
    apply SliceStable_Forall, List.Forall_forall.
    intros y Hy%filter_In. destruct Hy as [_ Hy]. apply Z.leb_le in Hy. lia.
  - apply Z.ltb_ge in Elt.
    assert ((t <=? key x) = true) as -> by (apply Z.leb_le; exact Elt).
    cbn [SliceStable]. apply insertStable_app_lt.
    apply SliceStable_Forall, List.Forall_forall.
    intros y Hy%filter_In. destruct Hy as [_ Hy]. apply Z.ltb_lt in Hy. lia.
Qed.

End ByKey.

End SortFacts.

(* ===================================================================== *)
(** * Ranking of the discovered candidates *)
(* ===================================================================== *)

Module RankingFacts.

Import Config Router SortFacts.

Lemma filter_and {A : Type} (f g : A -> bool) (l : list A) :
  List.filter f (List.filter g l) = List.filter (fun x => g x && f x)%bool l.
Proof.
  induction l as [|x l IH]; [reflexivity|]. cbn.
  destruct (g x); cbn; [destruct (f x)|]; rewrite ?IH; reflexivity.
Qed.

(** The priority map of the list [["p2"; "p1"]]. *)
Lemma fillPriorityMap_p2p1 :
  fillPriorityMap 0 ["p2"; "p1"] ∅ = <["p1" := 1]> (<["p2" := 0]> ∅).
Proof. reflexivity. Qed.

Lemma lookup_p2p1 (provider : string) :
  (<["p1" := 1]> (<["p2" := 0]> (∅ : gmap string Z))) !! provider
  = if String.eqb "p2" provider then Some 0
    else if String.eqb "p1" provider then Some 1 else None.
Proof.
  destruct (String.eqb_spec "p2" provider) as [<-|Hp2]; [reflexivity|].
  destruct (String.eqb_spec "p1" provider) as [<-|Hp1].
  - apply lookup_insert_eq.
  - rewrite !lookup_insert_ne by assumption. apply lookup_empty.
Qed.

(** The best priority under [["p2"; "p1"]], from any starting value. *)
Lemma best_from_p2p1 (ps : list string) (best : Z) :
  foldl (fun best provider =>
           match (<["p1" := 1]> (<["p2" := 0]> (∅ : gmap string Z))) !! provider with
           | Some priority => if priority <? best then priority else best
           | None => best
           end) best ps
  = if existsb (String.eqb "p2") ps then Z.min best 0
    else if existsb (String.eqb "p1") ps then Z.min best 1
    else best.
Proof.
  revert best. induction ps as [|p ps IH]; intros best; [reflexivity|].
  cbn [foldl existsb]. rewrite IH, lookup_p2p1.
  destruct (String.eqb "p2" p); cbn [orb].
  - destruct (0 <? best) eqn:E; [apply Z.ltb_lt in E|apply Z.ltb_ge in E];
      destruct (existsb (String.eqb "p2") ps),
               (existsb (String.eqb "p1") ps); lia.
  - destruct (String.eqb "p1" p); cbn [orb]; [|reflexivity].
    destruct (1 <? best) eqn:E; [apply Z.ltb_lt in E|apply Z.ltb_ge in E];
      destruct (existsb (String.eqb "p2") ps),
               (existsb (String.eqb "p1") ps); lia.
Qed.

Lemma best_p2p1 (c : candidateInfo) :
  getBestProviderPriority (providers c) (fillPriorityMap 0 ["p2"; "p1"] ∅)
  = if servedBy "p2" c then 0 else if servedBy "p1" c then 1 else 9999.
Proof.
  unfold getBestProviderPriority, servedBy.
  rewrite fillPriorityMap_p2p1, best_from_p2p1.
  destruct (existsb (String.eqb "p2") (providers c)),
           (existsb (String.eqb "p1") (providers c)); reflexivity.
Qed.

(** Under [["p2"; "p1"]] the ranking is three blocks, each in discovery
    order: served by [p2], served by [p1] and not by [p2], served by
    neither. *)
Lemma sort_p2p1 (candidates : list candidateInfo) :
  SliceStable
    (lessBy (fun c => getBestProviderPriority (providers c)
                        (fillPriorityMap 0 ["p2"; "p1"] ∅)))
    candidates
  = List.filter (servedBy "p2") candidates
    ++ List.filter (fun c => negb (servedBy "p2" c) && servedBy "p1" c)%bool
                   candidates
    ++ List.filter (fun c => negb (servedBy "p2" c) && negb (servedBy "p1" c))%bool
                   candidates.
Proof.
  set (key := fun c => getBestProviderPriority (providers c)
                         (fillPriorityMap 0 ["p2"; "p1"] ∅)).
  assert (forall c, key c = if servedBy "p2" c then 0
                            else if servedBy "p1" c then 1 else 9999) as Hkey
    by (intros c; apply best_p2p1).
  rewrite (SliceStable_split key 1).
  rewrite (SliceStable_split key 9999
             (List.filter (fun y => 1 <=? key y) candidates)).
  rewrite !filter_and.
  rewrite (List.filter_ext (fun y => key y <? 1) (servedBy "p2")).
  2: { intros c. rewrite Hkey.
       destruct (servedBy "p2" c), (servedBy "p1" c); reflexivity. }
  rewrite (List.filter_ext (fun x => (1 <=? key x) && (key x <? 9999))%bool
             (fun c => negb (servedBy "p2" c) && servedBy "p1" c)%bool).
  2: { intros c. rewrite Hkey.
       destruct (servedBy "p2" c), (servedBy "p1" c); reflexivity. }
  rewrite (List.filter_ext (fun x => (1 <=? key x) && (9999 <=? key x))%bool
             (fun c => negb (servedBy "p2" c) && negb (servedBy "p1" c))%bool).
  2: { intros c. rewrite Hkey.
       destruct (servedBy "p2" c), (servedBy "p1" c); reflexivity. }
  rewrite (SliceStable_const key 0), (SliceStable_const key 1),
    (SliceStable_const key 9999); [reflexivity|..];
    apply List.Forall_forall; intros c Hc%filter_In; destruct Hc as [_ Hc];
    rewrite Hkey; destruct (servedBy "p2" c), (servedBy "p1" c);
    try reflexivity; discriminate.
Qed.

(** ** Any priority list *)

Lemma existsb_eqb_In (p : string) (l : list string) :
  existsb (String.eqb p) l = true <-> In p l.
Proof.
  rewrite existsb_exists. split.
  - intros [x [Hx Heq]]. apply String.eqb_eq in Heq as ->. exact Hx.
  - intros Hp. exists p. split; [exact Hp|apply String.eqb_refl].
Qed.

(** The map filled from index [i] gives the providers of the list indexes
    from [i] on, and leaves the other keys as they were. *)
Lemma fillPriorityMap_lookup (priorityList : list string) (i : Z)
    (m : gmap string Z) (p : string) :
  (In p priorityList ->
   exists j, fillPriorityMap i priorityList m !! p = Some j
             /\ i <= j < i + Z.of_nat (length priorityList))
  /\ (~ In p priorityList -> fillPriorityMap i priorityList m !! p = m !! p).
Proof.
  revert i m. induction priorityList as [|q l IH]; intros i m.
  - split; [intros []|reflexivity].
  - cbn [fillPriorityMap length]. destruct (IH (i + 1) (<[q := i]> m)) as [Hin Hout].
    destruct (in_dec String.string_dec p l) as [Hl|Hl].
    + split; [|intros Hn; exfalso; apply Hn; right; exact Hl].
      intros _. destruct (Hin Hl) as [j [Hj Hb]]. exists j. split; [exact Hj|lia].
    + rewrite (Hout Hl). split.
      * intros [->|Hp]; [|contradiction]. exists i.
        rewrite lookup_insert_eq. split; [reflexivity|lia].
      * intros Hn. apply lookup_insert_ne. intros ->. apply Hn. left. reflexivity.
Qed.

(** The fold of [getBestProviderPriority] never raises the value it
    starts from, and keeps it exactly when no provider has a priority
    below it. *)
Lemma best_fold (pm : gmap string Z) (ps : list string) (best : Z) :
  let result :=
    foldl (fun best provider =>
             match pm !! provider with
             | Some priority => if priority <? best then priority else best
             | None => best
             end) best ps in
  result <= best
  /\ (result = best
      <-> forall p j, In p ps -> pm !! p = Some j -> best <= j).
Proof.
  revert best. induction ps as [|p ps IH]; intros best; cbn [foldl].
  - cbv zeta. split; [lia|]. split; [intros _ p j []|reflexivity].
  - cbv zeta. destruct (pm !! p) as [j|] eqn:Hp.
    + destruct (j <? best) eqn:Hlt;
        [apply Z.ltb_lt in Hlt|apply Z.ltb_ge in Hlt].
      * destruct (IH j) as [Hle _]. cbv zeta in Hle. split; [lia|].
        split; [lia|]. intros Hall.
        specialize (Hall p j (or_introl eq_refl) Hp). lia.
      * destruct (IH best) as [Hle Hiff]. cbv zeta in Hle, Hiff.
        split; [exact Hle|]. rewrite Hiff. split.
        -- intros Hall q k [<-|Hq] Hk; [congruence|eauto].
        -- intros Hall q k Hq Hk. apply (Hall q k); [right; exact Hq|exact Hk].
    + destruct (IH best) as [Hle Hiff]. cbv zeta in Hle, Hiff.
      split; [exact Hle|]. rewrite Hiff. split.
      * intros Hall q k [<-|Hq] Hk; [congruence|eauto].
      * intros Hall q k Hq Hk. apply (Hall q k); [right; exact Hq|exact Hk].
Qed.

(** With at most 9999 providers in the list, the best priority is 9999
    exactly for the candidates without a prioritized provider. *)
Lemma best_unprioritized (priorityList : list string) (c : candidateInfo) :
  Z.of_nat (length priorityList) <= 9999 ->
  let key :=
    getBestProviderPriority (providers c)
      (fillPriorityMap 0 priorityList ∅) in
  key <= 9999 /\ (key = 9999 <-> prioritized priorityList c = false).
Proof.
  intros Hlen. cbv zeta. unfold getBestProviderPriority.
  destruct (best_fold (fillPriorityMap 0 priorityList ∅) (providers c) 9999)
    as [Hle Hiff].
  cbv zeta in Hle, Hiff. split; [exact Hle|]. rewrite Hiff.
  unfold prioritized. rewrite <- not_true_iff_false, existsb_exists. split.
  - intros Hall [p [Hp Hin]]. apply existsb_eqb_In in Hin.
    destruct (fillPriorityMap_lookup priorityList 0 ∅ p) as [Hsome _].
    destruct (Hsome Hin) as [j [Hj Hb]]. specialize (Hall p j Hp Hj). lia.
  - intros Hnone p j Hp Hj.
    destruct (in_dec String.string_dec p priorityList) as [Hin|Hout].
    + exfalso. apply Hnone. exists p. split; [exact Hp|].
      apply existsb_eqb_In. exact Hin.
    + destruct (fillPriorityMap_lookup priorityList 0 ∅ p) as [_ Hkeep].
      rewrite (Hkeep Hout), lookup_empty in Hj. discriminate.
Qed.

(** Under any priority list of at most 9999 providers, the candidates
    without a prioritized provider come last, in discovery order, after
    the prioritized ones in the order of their best priority. *)
Lemma unprioritized_last (r : ModelRouter) (candidates : list candidateInfo)
    (baseName : string) :
  let priorityList := priorityListOf r (inferModelFamily baseName) in
  let key := fun c => getBestProviderPriority (providers c)
                        (fillPriorityMap 0 priorityList ∅) in
  priorityList <> [] ->
  Z.of_nat (length priorityList) <= 9999 ->
  sortCandidatesByProviderPriority r candidates baseName
  = map modelID
      (SliceStable (lessBy key)
         (List.filter (prioritized priorityList) candidates)
       ++ List.filter (fun c => negb (prioritized priorityList c)) candidates).
Proof.
  intros priorityList key Hne Hlen.
  unfold sortCandidatesByProviderPriority. fold priorityList.
  assert ((length priorityList =? 0)%nat = false) as ->
    by (destruct priorityList; [congruence|reflexivity]).
  cbv zeta. f_equal.
  change (SliceStable (lessBy key) candidates = SliceStable (lessBy key)
            (List.filter (prioritized priorityList) candidates)
          ++ List.filter (fun c => negb (prioritized priorityList c)) candidates).
  rewrite (SliceStable_split key 9999 candidates).
  assert (forall c, (key c <? 9999) = prioritized priorityList c) as Hlt.
  { intros c. destruct (best_unprioritized priorityList c Hlen) as [Hle Hiff].
    cbv zeta in Hle, Hiff. fold (key c) in Hle, Hiff.
    destruct (prioritized priorityList c).
    - apply Z.ltb_lt. assert (key c <> 9999) by (rewrite Hiff; discriminate). lia.
    - apply Z.ltb_ge. assert (key c = 9999) by (apply Hiff; reflexivity). lia. }
  assert (forall c, (9999 <=? key c) = negb (prioritized priorityList c)) as Hge.
  { intros c. rewrite <- Hlt. rewrite Z.leb_antisym. reflexivity. }
  rewrite (List.filter_ext _ _ Hlt), (List.filter_ext _ _ Hge).
  f_equal. apply (SliceStable_const key 9999).
  apply List.Forall_forall. intros c Hc%filter_In. destruct Hc as [_ Hc].
  destruct (best_unprioritized priorityList c Hlen) as [_ Hiff].
  apply Hiff. apply negb_true_iff. exact Hc.
Qed.

(** ** The priority list of the specification's example *)

(** C6. With the priority list [["p2"; "p1"]] configured for the family
    inferred from the base name, the ranking returns first the candidates
    served by [p2], then those served by [p1] and not by [p2], then those
    none of whose providers is in the list, each group in discovery order;
    so a candidate served only by [p2] comes before one served only by
    [p1], and the candidates without a prioritized provider come after all
    the others, in their discovery order. With no priority list configured
    for the family the discovery order is returned as it is. *)
Theorem family_ranking (r : ModelRouter) (candidates : list candidateInfo)
    (baseName : string) :
  (priorityListOf r (inferModelFamily baseName) = ["p2"; "p1"] ->
   sortCandidatesByProviderPriority r candidates baseName
   = map modelID
       (List.filter (servedBy "p2") candidates
        ++ List.filter
             (fun c => negb (servedBy "p2" c) && servedBy "p1" c)%bool
             candidates
        ++ List.filter
             (fun c => negb (servedBy "p2" c) && negb (servedBy "p1" c))%bool
             candidates)
   /\ forall a b : candidateInfo,
       In a candidates -> In b candidates ->
       providers a = ["p2"] -> providers b = ["p1"] ->
       exists l1 l2 l3,
         sortCandidatesByProviderPriority r candidates baseName
         = l1 ++ modelID a :: l2 ++ modelID b :: l3)
  /\ (priorityListOf r (inferModelFamily baseName) = [] ->
      sortCandidatesByProviderPriority r candidates baseName
      = map modelID candidates).
Proof.
  split.
  - intros Hlist.
    assert (sortCandidatesByProviderPriority r candidates baseName
            = map modelID
                (List.filter (servedBy "p2") candidates
                 ++ List.filter
                      (fun c => negb (servedBy "p2" c) && servedBy "p1" c)%bool
                      candidates
                 ++ List.filter
                      (fun c => negb (servedBy "p2" c)
                                && negb (servedBy "p1" c))%bool
                      candidates)) as Hblocks.
    { unfold sortCandidatesByProviderPriority. rewrite Hlist.
      cbn [length Nat.eqb]. rewrite <- sort_p2p1. reflexivity. }
    split; [exact Hblocks|].
    intros a b Ha Hb Hpa Hpb.
    assert (In a (List.filter (servedBy "p2") candidates)) as Ha'.
    { apply filter_In. split; [exact Ha|].
      unfold servedBy. rewrite Hpa. reflexivity. }
    assert (In b (List.filter
                    (fun c => negb (servedBy "p2" c) && servedBy "p1" c)%bool
                    candidates)) as Hb'.
    { apply filter_In. split; [exact Hb|].
      unfold servedBy. rewrite Hpb. reflexivity. }
    apply in_split in Ha' as [a1 [a2 Ea]].
    apply in_split in Hb' as [b1 [b2 Eb]].
    rewrite Hblocks, Ea, Eb.
    set (rest := List.filter _ candidates).
    exists (map modelID a1), (map modelID (a2 ++ b1)),
      (map modelID (b2 ++ rest)).
    repeat (rewrite ?map_app, <- ?app_assoc; cbn [map app]). reflexivity.
  - intros Hnone. unfold sortCandidatesByProviderPriority.
    rewrite Hnone. reflexivity.
Qed.

(** Four candidates discovered for ["gpt-x"] under the priority list of
    the demonstration router: served by [p1], by [p3], by [p2], by [p3]. *)
Lemma family_ranking_witness :
  let a := mkInfo "on-p2" ["p2"] "" in
  let b := mkInfo "on-p1" ["p1"] "" in
  let u := mkInfo "other-1" ["p3"] "" in
  let v := mkInfo "other-2" ["p3"] "" in
  sortCandidatesByProviderPriority (Demo.router true) [b; u; a; v] "gpt-x"
  = ["on-p2"; "on-p1"; "other-1"; "other-2"]
  /\ (exists l1 l2 l3,
        sortCandidatesByProviderPriority (Demo.router true) [b; u; a; v] "gpt-x"
        = l1 ++ modelID a :: l2 ++ modelID b :: l3)
  /\ sortCandidatesByProviderPriority (Demo.router true) [b; u; a; v] "qwen-3"
     = ["on-p1"; "other-1"; "on-p2"; "other-2"].
Proof.
  intros a b u v.
  assert (priorityListOf (Demo.router true) (inferModelFamily "gpt-x")
          = ["p2"; "p1"]) as Hgpt by (vm_compute; reflexivity).
  assert (priorityListOf (Demo.router true) (inferModelFamily "qwen-3") = [])
    as Hqwen by (vm_compute; reflexivity).
  destruct (family_ranking (Demo.router true) [b; u; a; v] "gpt-x")
    as [Hranked _].
  destruct (Hranked Hgpt) as [Hblocks Hbefore].
  destruct (family_ranking (Demo.router true) [b; u; a; v] "qwen-3")
    as [_ Hplain].
  split; [rewrite Hblocks; vm_compute; reflexivity|]. split.
  - apply (Hbefore a b); [right; right; left; reflexivity|left; reflexivity
                          |reflexivity|reflexivity].
  - rewrite (Hplain Hqwen). reflexivity.
Defined.

End RankingFacts.

(* ===================================================================== *)
(** * The quota state machine *)
(* ===================================================================== *)

Module QuotaFacts.

Import QuotaState Quota.


(** On a record that is there, the three mutators return a record. *)
Lemma UpdateQuotaFromInfo_some (q : QuotaState.t) (i : QuotaInfo.t) :
  exists q', UpdateQuotaFromInfo (Some q) i = Ok (Some q').
Proof.
  unfold UpdateQuotaFromInfo; cbn.
  repeat match goal with |- context [if ?b then _ else _] => destruct b end;
    eauto.
Qed.

Lemma ClearQuotaState_some (q : QuotaState.t) (now : Time) :
  ClearQuotaState (Some q) now
  = Ok (Some (QuotaState.mk false "" zero 0 (-1) (-1) zero now "")).
Proof. reflexivity. Qed.

Lemma UpdateQuotaFrom429_cooldown (sched : Z -> Duration * Z)
    (q : QuotaState.t) (now : Time) (level : Z) :
  UpdateQuotaFrom429 sched (Some q) None now level
  = Ok (Some (QuotaState.mk true "quota"
                (if 0 <? (sched level).1 then Add now (sched level).1 else zero)
                (sched level).2 (Total q) 0
                (if 0 <? (sched level).1 then Add now (sched level).1 else zero)
                now "429")).
Proof.
  unfold UpdateQuotaFrom429; cbn. destruct (sched level); reflexivity.
Qed.

Lemma UpdateQuotaFrom429_retryAfter (sched : Z -> Duration * Z)
    (q : QuotaState.t) (d : Duration) (now : Time) (level : Z) :
  UpdateQuotaFrom429 sched (Some q) (Some d) now level
  = Ok (Some (QuotaState.mk true "quota" (Add now d) (BackoffLevel q)
                (Total q) 0 (Add now d) now "429")).
Proof. reflexivity. Qed.

(** The schedule modelled from the specification starts with a cooldown
    of one second. *)
Lemma specQuotaCooldown_0 : specQuotaCooldown 0 = (Second, 1).
Proof. reflexivity. Qed.

Lemma specQuotaCooldown_pos (level : Z) : 0 < (specQuotaCooldown level).1.
Proof.
  unfold specQuotaCooldown.
  assert (0 < 2 ^ Z.max 0 level) by (apply Z.pow_pos_nonneg; lia).
  destruct (30 * Minute <=? Second * 2 ^ Z.max 0 level) eqn:E; cbn [fst].
  - reflexivity.
  - unfold Second. lia.
Qed.



(** C5. After [ClearQuotaState(state, now)] the totals are [-1], the
    state is not exceeded, reason and source are empty, the backoff level
    is 0, both reset times are the zero time, [UpdatedAt] is [now], and
    [IsQuotaExhausted] answers available with the zero time at every
    time. *)
Theorem clear_resets_to_unknown (state : QuotaState.t) (now : Time) :
  exists state',
    ClearQuotaState (Some state) now = Ok (Some state')
    /\ Total state' = -1 /\ Remaining state' = -1
    /\ Exceeded state' = false
    /\ Reason state' = "" /\ Source state' = ""
    /\ BackoffLevel state' = 0
    /\ ResetAt state' = zero /\ NextRecoverAt state' = zero
    /\ UpdatedAt state' = now
    /\ forall t : Time, IsQuotaExhausted (Some state') t = Ok (false, zero).
Proof.
  eexists. split; [apply ClearQuotaState_some|].
  repeat split.
Qed.

(** C9. [UpdateQuotaFromInfo] never lowers the exceeded flag: on a state
    that is exceeded it leaves the flag set whatever the info, and leaves
    reason, recovery time and backoff level as they were unless the info
    has [Remaining = 0] and [Total > 0]. Of the three mutators only
    [ClearQuotaState] yields a state that is not exceeded. *)
Theorem info_never_lowers_exceeded (state : QuotaState.t)
    (i : QuotaInfo.t) :
  Exceeded state = true ->
  (exists state',
      UpdateQuotaFromInfo (Some state) i = Ok (Some state')
      /\ Exceeded state' = true
      /\ (~ (QuotaInfo.Remaining i = 0 /\ 0 < QuotaInfo.Total i) ->
          Reason state' = Reason state
          /\ NextRecoverAt state' = NextRecoverAt state
          /\ BackoffLevel state' = BackoffLevel state))
  /\ (forall sched retryAfter now level,
        exists state',
          UpdateQuotaFrom429 sched (Some state) retryAfter now level
          = Ok (Some state')
          /\ Exceeded state' = true)
  /\ (forall now,
        exists state',
          ClearQuotaState (Some state) now = Ok (Some state')
          /\ Exceeded state' = false).
Proof.
  intros Hex. split; [|split].
  - unfold UpdateQuotaFromInfo; cbn -[Z.eqb Z.ltb].
    destruct (QuotaInfo.Remaining i =? 0) eqn:Hrem;
      destruct (0 <? QuotaInfo.Total i) eqn:Htot; cbn -[Z.eqb Z.ltb].
    + destruct (IsZero (NextRecoverAt state)
                && negb (IsZero (QuotaInfo.ResetAt i)))%bool;
        eexists; (split; [reflexivity|]); (split; [reflexivity|]);
        intros Hn; exfalso; apply Hn; split; lia.
    + eexists; split; [reflexivity|]. cbn. auto.
    + eexists; split; [reflexivity|]. cbn. auto.
    + eexists; split; [reflexivity|]. cbn. auto.
  - intros sched [d|] now level.
    + eexists; split; [apply UpdateQuotaFrom429_retryAfter|reflexivity].
    + eexists; split; [apply UpdateQuotaFrom429_cooldown|reflexivity].
  - intros now. eexists; split; [apply ClearQuotaState_some|reflexivity].
Qed.

Lemma info_never_lowers_exceeded_witness :
  exists state',
    UpdateQuotaFromInfo
      (Some (QuotaState.mk true "quota" 500 2 100 0 500 400 "429"))
      (QuotaInfo.mk 100 (-1) zero "api" 450) = Ok (Some state')
    /\ Exceeded state' = true
    /\ Reason state' = "quota"
    /\ NextRecoverAt state' = 500
    /\ BackoffLevel state' = 2.
Proof.
  destruct (info_never_lowers_exceeded
              (QuotaState.mk true "quota" 500 2 100 0 500 400 "429")
              (QuotaInfo.mk 100 (-1) zero "api" 450) eq_refl)
    as [[state' [Hupd [Hex Hkeep]]] _].
  exists state'. split; [exact Hupd|]. split; [exact Hex|].
  apply Hkeep. cbn. intros [Hrem _]. discriminate Hrem.
Defined.

End QuotaFacts.

(* ===================================================================== *)
(** * The quota cache *)
(* ===================================================================== *)

Module QuotaCacheFacts.

Import QuotaCache.

(** A cache as [NewQuotaCache] and the methods leave it: the map is
    allocated and holds no nil entry. *)
Definition allocated (c : QuotaCache.t) : Prop :=
  exists g, entries c = Some g /\ forall k, g !! k <> Some None.

Lemma NewQuotaCache_ttl (d : Duration) :
  NewQuotaCache d
  = Some (QuotaCache.mk (Some ∅) (if d <=? 0 then 5 * Minute else d)).
Proof. reflexivity. Qed.

Lemma NewQuotaCache_allocated (d : Duration) :
  exists c, NewQuotaCache d = Some c /\ allocated c.
Proof.
  eexists; split; [reflexivity|]. exists ∅; split; [reflexivity|].
  intros k. rewrite lookup_empty. discriminate.
Qed.

Lemma Set_allocated (c : QuotaCache.t) (p a m : string) (i : QuotaInfo.t)
    (now : Time) :
  allocated c ->
  exists c', Set_ (Some c) p a m i now = Ok (Some c') /\ allocated c'.
Proof.
  intros [g [Hg Hnn]]. unfold Set_; cbn. rewrite Hg; cbn.
  eexists; split; [reflexivity|]. eexists; split; [reflexivity|].
  intros k. destruct (decide (quotaCacheKey p a m = k)) as [->|Hne].
  - rewrite lookup_insert_eq. discriminate.
  - rewrite lookup_insert_ne by exact Hne. apply Hnn.
Qed.

Lemma Invalidate_allocated (c : QuotaCache.t) (p a m : string) :
  allocated c ->
  exists c', Invalidate (Some c) p a m = Ok (Some c') /\ allocated c'.
Proof.
  intros [g [Hg Hnn]]. unfold Invalidate; cbn. rewrite Hg; cbn.
  eexists; split; [reflexivity|]. eexists; split; [reflexivity|].
  intros k. destruct (decide (quotaCacheKey p a m = k)) as [->|Hne].
  - rewrite lookup_delete_eq. discriminate.
  - rewrite lookup_delete_ne by exact Hne. apply Hnn.
Qed.

(** What the sweep leaves under each key. *)
Lemma Cleanup_lookup (c : QuotaCache.t) (g : gmap string (option quotaCacheEntry))
    (now : Time) :
  entries c = Some g ->
  exists g',
    Cleanup (Some c) now = Ok (Some (QuotaCache.mk (Some g') (ttl c)))
    /\ forall k,
        g' !! k = match g !! k with
                  | Some entry => if swept now entry then None else Some entry
                  | None => None
                  end.
Proof.
  intros Hg. unfold Cleanup; cbn. rewrite Hg.
  eexists; split; [reflexivity|]. intros k.
  destruct (g !! k) as [entry|] eqn:Hk.
  - destruct (swept now entry) eqn:Hs.
    + apply map_lookup_filter_None. right. intros x Hx. cbn.
      rewrite Hk in Hx. injection Hx as <-. rewrite Hs. discriminate.
    + apply map_lookup_filter_Some. split; [exact Hk|exact Hs].
  - apply map_lookup_filter_None. left. exact Hk.
Qed.

Lemma Cleanup_allocated (c : QuotaCache.t) (now : Time) :
  allocated c ->
  exists c', Cleanup (Some c) now = Ok (Some c') /\ allocated c'.
Proof.
  intros [g [Hg Hnn]].
  destruct (Cleanup_lookup c g now Hg) as [g' [Hc Hl]].
  eexists; split; [exact Hc|]. exists g'; split; [reflexivity|].
  intros k. rewrite Hl. specialize (Hnn k).
  destruct (g !! k) as [[e|]|]; cbn; [|congruence|discriminate].
  destruct (After now (expiresAt e)); discriminate.
Qed.

(** C7. [NewQuotaCache] with a TTL that is not positive yields a TTL of
    five minutes. [Get] misses both on a key that is absent and on an
    entry whose [expiresAt] has passed, and hands back the cache as it
    was, the expired entry still in the map. [Set] stores the info under
    the key, whatever was there, with the expiry [now + ttl]. [Cleanup]
    removes exactly the entries whose [expiresAt] has passed: such an
    entry is gone, any other entry is kept as it was, and no key is
    added. *)
Theorem quota_cache_contract :
  (forall d : Duration, d <= 0 ->
     exists c, NewQuotaCache d = Some c /\ ttl c = 5 * Minute)
  /\ (forall c p a m now,
        mapLookup (entries c) (quotaCacheKey p a m) = None ->
        Get (Some c) p a m now = Ok ((QuotaInfo.empty, false), Some c))
  /\ (forall c p a m now e,
        mapLookup (entries c) (quotaCacheKey p a m) = Some (Some e) ->
        After now (expiresAt e) = true ->
        Get (Some c) p a m now = Ok ((QuotaInfo.empty, false), Some c))
  /\ (forall c g p a m i now,
        entries c = Some g ->
        Set_ (Some c) p a m i now
        = Ok (Some (QuotaCache.mk
                      (Some (<[quotaCacheKey p a m :=
                                 Some (mkEntry i (Add now (ttl c)))]> g))
                      (ttl c))))
  /\ (forall c g now,
        entries c = Some g ->
        exists g',
          Cleanup (Some c) now = Ok (Some (QuotaCache.mk (Some g') (ttl c)))
          /\ (forall k e, g !! k = Some (Some e) ->
                After now (expiresAt e) = true -> g' !! k = None)
          /\ (forall k e, g !! k = Some (Some e) ->
                After now (expiresAt e) = false -> g' !! k = Some (Some e))
          /\ (forall k, g !! k = None -> g' !! k = None)).
Proof.
  split; [|split; [|split; [|split]]].
  - intros d Hd. eexists; split; [apply NewQuotaCache_ttl|]. cbn [ttl].
    apply Z.leb_le in Hd. rewrite Hd. reflexivity.
  - intros c p a m now Hk. unfold Get; cbn. rewrite Hk. reflexivity.
  - intros c p a m now e Hk Hexp. unfold Get; cbn. rewrite Hk; cbn.
    rewrite Hexp. reflexivity.
  - intros c g p a m i now Hg. unfold Set_; cbn. rewrite Hg. reflexivity.
  - intros c g now Hg.
    destruct (Cleanup_lookup c g now Hg) as [g' [Hc Hl]].
    exists g'. split; [exact Hc|]. repeat split.
    + intros k e Hk Hexp. rewrite Hl, Hk. cbn. rewrite Hexp. reflexivity.
    + intros k e Hk Hexp. rewrite Hl, Hk. cbn. rewrite Hexp. reflexivity.
    + intros k Hk. rewrite Hl, Hk. reflexivity.
Qed.

(** A cache of TTL five minutes filled at time 100: one second after the
    expiry the entry is missed by [Get], still handed back in the cache,
    and removed by [Cleanup]. *)
Lemma quota_cache_contract_witness :
  let i := QuotaInfo.mk 1000 250 0 "api" 100 in
  let e := mkEntry i (Add 100 (5 * Minute)) in
  let c := QuotaCache.mk (Some {[ "p:a:m" := Some e ]}) (5 * Minute) in
  let late := Add (Add 100 (5 * Minute)) Second in
  (exists c0, NewQuotaCache 0 = Some c0 /\ ttl c0 = 5 * Minute)
  /\ Get (Some c) "p" "a" "other" late = Ok ((QuotaInfo.empty, false), Some c)
  /\ Get (Some c) "p" "a" "m" late = Ok ((QuotaInfo.empty, false), Some c)
  /\ Set_ (Some (QuotaCache.mk (Some ∅) (5 * Minute))) "p" "a" "m" i 100
     = Ok (Some (QuotaCache.mk (Some (<["p:a:m" := Some e]> ∅)) (5 * Minute)))
  /\ (exists g',
        Cleanup (Some c) late
        = Ok (Some (QuotaCache.mk (Some g') (5 * Minute)))
        /\ g' !! "p:a:m" = None).
Proof.
  intros i e c late.
  destruct quota_cache_contract as [Hnew [Hmiss [Hexp [Hset Hclean]]]].
  split; [apply (Hnew 0); lia|].
  split; [apply Hmiss; reflexivity|].
  split; [apply (Hexp c "p" "a" "m" late e); reflexivity|].
  split; [exact (Hset (QuotaCache.mk (Some ∅) (5 * Minute)) ∅
                       "p" "a" "m" i 100 eq_refl)|].
  destruct (Hclean c _ late eq_refl) as [g' [Hc [Hgone _]]].
  exists g'. split; [exact Hc|].
  apply (Hgone "p:a:m" e); reflexivity.
Defined.

End QuotaCacheFacts.

(* ===================================================================== *)
(** * Nil receivers and arguments *)
(* ===================================================================== *)

Module NilFacts.

Import Quota QuotaCache.

(** C10. Every quota operation is total on nil. On a nil state
    [IsQuotaExhausted] answers available with the zero time,
    [GetEffectiveResetTime] the zero time, and the three mutators return
    with nothing to update; on a nil cache [Get] misses and [Set],
    [Invalidate] and [Cleanup] return with the cache still nil. None of
    them panics. *)
Theorem nil_is_total (sched : Z -> Duration * Z) (now : Time)
    (i : QuotaInfo.t) (retryAfter : option Duration) (level : Z)
    (p a m : string) :
  IsQuotaExhausted None now = Ok (false, zero)
  /\ GetEffectiveResetTime None = Ok zero
  /\ UpdateQuotaFromInfo None i = Ok None
  /\ UpdateQuotaFrom429 sched None retryAfter now level = Ok None
  /\ ClearQuotaState None now = Ok None
  /\ Get None p a m now = Ok ((QuotaInfo.empty, false), None)
  /\ Set_ None p a m i now = Ok None
  /\ Invalidate None p a m = Ok None
  /\ Cleanup None now = Ok None.
Proof. repeat split. Qed.

End NilFacts.

(* ===================================================================== *)
(** * More on the quota state machine *)
(* ===================================================================== *)

Module QuotaMore.

Import QuotaState Quota QuotaFacts.

(** The answer of [IsQuotaExhausted] on a record, as one expression: the
    two triggers, the exceeded flag and [Remaining = 0] with [Total > 0],
    lead to the same treatment of the effective reset time. *)
Lemma IsQuotaExhausted_some (q : QuotaState.t) (now : Time) :
  IsQuotaExhausted (Some q) now
  = Ok (let rt := if IsZero (ResetAt q) then NextRecoverAt q else ResetAt q in
        if (Exceeded q || (Remaining q =? 0) && (0 <? Total q))%bool
        then if IsZero rt then (true, zero)
             else if After rt now then (true, rt) else (false, zero)
        else (false, zero)).
Proof.
  unfold IsQuotaExhausted; cbn -[Z.eqb Z.ltb IsZero After].
  destruct (Exceeded q); cbn -[Z.eqb Z.ltb IsZero After].
  - destruct (IsZero (if IsZero (ResetAt q) then NextRecoverAt q else ResetAt q));
      cbn; [reflexivity|].
    destruct (After _ now); reflexivity.
  - destruct ((Remaining q =? 0) && (0 <? Total q))%bool; [|reflexivity].
    destruct (IsZero (if IsZero (ResetAt q) then NextRecoverAt q else ResetAt q));
      cbn; [reflexivity|].
    destruct (After _ now); reflexivity.
Qed.

Lemma GetEffectiveResetTime_some (q : QuotaState.t) :
  GetEffectiveResetTime (Some q)
  = Ok (if IsZero (ResetAt q) then NextRecoverAt q else ResetAt q).
Proof.
  unfold GetEffectiveResetTime; cbn. destruct (IsZero (ResetAt q)); reflexivity.
Qed.

(** X1. [IsQuotaExhausted] never hands out a reset time that has passed:
    an answer "available" carries the zero time, and an answer "exhausted"
    carries either the zero time or a time strictly after [now], which is
    then the time [GetEffectiveResetTime] gives for the record. *)
Theorem exhausted_time_is_sound (q : QuotaState.t) (now : Time) :
  exists (exhausted : bool) (resetTime : Time),
    IsQuotaExhausted (Some q) now = Ok (exhausted, resetTime)
    /\ (exhausted = false -> resetTime = zero)
    /\ (exhausted = true ->
        resetTime = zero
        \/ (After resetTime now = true
            /\ GetEffectiveResetTime (Some q) = Ok resetTime)).
Proof.
  rewrite IsQuotaExhausted_some, GetEffectiveResetTime_some. cbv zeta.
  set (rt := if IsZero (ResetAt q) then NextRecoverAt q else ResetAt q).
  destruct (Exceeded q || (Remaining q =? 0) && (0 <? Total q))%bool.
  - destruct (IsZero rt) eqn:Hz.
    + exists true, zero. auto.
    + destruct (After rt now) eqn:Ha.
      * exists true, rt. split; [reflexivity|]. split; [discriminate|]. auto.
      * exists false, zero. split; [reflexivity|]. split; [auto|discriminate].
  - exists false, zero. split; [reflexivity|]. split; [auto|discriminate].
Qed.

(** X2. As long as the record is not updated, availability lasts: if
    [IsQuotaExhausted] answers "available" at some time, it answers
    "available" at every later time. *)
Theorem available_stays_available (q : QuotaState.t) (now later : Time)
    (resetTime : Time) :
  IsQuotaExhausted (Some q) now = Ok (false, resetTime) ->
  now <= later ->
  IsQuotaExhausted (Some q) later = Ok (false, zero).
Proof.
  rewrite !IsQuotaExhausted_some. cbv zeta.
  set (rt := if IsZero (ResetAt q) then NextRecoverAt q else ResetAt q).
  destruct (Exceeded q || (Remaining q =? 0) && (0 <? Total q))%bool;
    [|reflexivity].
  destruct (IsZero rt); [discriminate|].
  unfold After. destruct (now <? rt) eqn:Hnow; [discriminate|].
  intros _ Hle. apply Z.ltb_ge in Hnow.
  assert ((later <? rt) = false) as -> by (apply Z.ltb_ge; lia).
  reflexivity.
Qed.

Lemma available_stays_available_witness :
  IsQuotaExhausted
    (Some (QuotaState.mk true "quota" 700 1 100 0 700 500 "429")) 90000
  = Ok (false, zero).
Proof.
  apply (available_stays_available _ 700 90000 zero); [reflexivity|lia].
Defined.

(** X3. A record is blocked with no reset time, at every time and until it
    is updated or cleared, exactly when one of the two triggers holds and
    both [ResetAt] and [NextRecoverAt] are the zero time. *)
Theorem blocked_without_time (q : QuotaState.t) :
  ((Exceeded q = true \/ (Remaining q = 0 /\ 0 < Total q))
   /\ ResetAt q = zero /\ NextRecoverAt q = zero)
  <-> forall now, IsQuotaExhausted (Some q) now = Ok (true, zero).
Proof.
  split.
  - intros [Htrig [Hr Hn]] now. rewrite IsQuotaExhausted_some. cbv zeta.
    rewrite Hr, Hn. cbn [IsZero zero Z.eqb].
    assert ((Exceeded q || (Remaining q =? 0) && (0 <? Total q))%bool = true)
      as ->; [|reflexivity].
    destruct Htrig as [->|[Hrem Htot]]; [reflexivity|].
    rewrite Hrem. apply Z.ltb_lt in Htot. rewrite Htot. apply orb_true_r.
  - intros Hall.
    set (rt := if IsZero (ResetAt q) then NextRecoverAt q else ResetAt q).
    pose proof (Hall rt) as Hat. rewrite IsQuotaExhausted_some in Hat.
    cbv zeta in Hat. fold rt in Hat.
    destruct (Exceeded q || (Remaining q =? 0) && (0 <? Total q))%bool eqn:Htrig;
      [|discriminate].
    destruct (IsZero rt) eqn:Hz.
    + split.
      * apply orb_true_iff in Htrig as [Hex|Hdep]; [left; exact Hex|right].
        apply andb_true_iff in Hdep as [Hrem Htot].
        apply Z.eqb_eq in Hrem. apply Z.ltb_lt in Htot. auto.
      * unfold rt, IsZero in *. destruct (ResetAt q =? 0) eqn:Hr.
        -- apply Z.eqb_eq in Hr, Hz. auto.
        -- congruence.
    + unfold After in Hat. rewrite Z.ltb_irrefl in Hat. discriminate.
Qed.

(** X4. After [UpdateQuotaFrom429], with or without a retry-after, the
    record is exhausted exactly up to its recovery time: [ResetAt] and
    [NextRecoverAt] hold the same time; if it is the zero time (the
    schedule gave no positive cooldown) the record is blocked at every
    time; otherwise [IsQuotaExhausted] answers "exhausted until the
    recovery time" strictly before it and "available" from it on. *)
Theorem window_after_429 (sched : Z -> Duration * Z) (q : QuotaState.t)
    (retryAfter : option Duration) (now : Time) (level : Z) :
  exists q',
    UpdateQuotaFrom429 sched (Some q) retryAfter now level = Ok (Some q')
    /\ ResetAt q' = NextRecoverAt q'
    /\ NextRecoverAt q'
       = match retryAfter with
         | Some d => Add now d
         | None => if 0 <? (sched level).1
                   then Add now (sched level).1 else zero
         end
    /\ forall t,
         IsQuotaExhausted (Some q') t
         = Ok (if IsZero (NextRecoverAt q') then (true, zero)
               else if After (NextRecoverAt q') t
                    then (true, NextRecoverAt q') else (false, zero)).
Proof.
  destruct retryAfter as [d|].
  - eexists. split; [apply UpdateQuotaFrom429_retryAfter|].
    split; [reflexivity|]. split; [reflexivity|]. intros t.
    rewrite IsQuotaExhausted_some. cbn -[IsZero After Add].
    destruct (IsZero (Add now d)) eqn:Hz; rewrite ?Hz; reflexivity.
  - eexists. split; [apply UpdateQuotaFrom429_cooldown|].
    split; [reflexivity|]. split; [reflexivity|]. intros t.
    rewrite IsQuotaExhausted_some. cbn -[IsZero After Add Z.ltb].
    destruct (IsZero (if 0 <? (sched level).1
                      then Add now (sched level).1 else zero)) eqn:Hz;
      rewrite ?Hz; reflexivity.
Qed.

(** X5. [UpdateQuotaFromInfo] is idempotent: applying the same info a
    second time changes nothing. *)
Theorem info_update_idempotent (q : QuotaState.t) (i : QuotaInfo.t) :
  exists q',
    UpdateQuotaFromInfo (Some q) i = Ok (Some q')
    /\ UpdateQuotaFromInfo (Some q') i = Ok (Some q').
Proof.
  unfold UpdateQuotaFromInfo; cbn -[Z.eqb Z.ltb IsZero].
  destruct ((QuotaInfo.Remaining i =? 0) && (0 <? QuotaInfo.Total i))%bool;
    cbn -[Z.eqb Z.ltb IsZero].
  - destruct (IsZero (QuotaInfo.ResetAt i)) eqn:Hr;
      destruct (IsZero (NextRecoverAt q)) eqn:Hn;
      cbn -[Z.eqb Z.ltb IsZero];
      (eexists; split; [reflexivity|]);
      cbn -[Z.eqb Z.ltb IsZero]; rewrite ?Hn, ?Hr;
      cbn -[Z.eqb Z.ltb IsZero]; rewrite ?andb_false_r; reflexivity.
  - eexists; split; reflexivity.
Qed.

(** X6. An info that does not show depletion never exhausts a record that
    was not exceeded: unless [Remaining = 0] and [Total > 0] (so, in
    particular, when either is the unknown [-1]), the record is available
    at every time after [UpdateQuotaFromInfo]. *)
Theorem unknown_is_not_exhaustion (q : QuotaState.t) (i : QuotaInfo.t) :
  Exceeded q = false ->
  ~ (QuotaInfo.Remaining i = 0 /\ 0 < QuotaInfo.Total i) ->
  exists q',
    UpdateQuotaFromInfo (Some q) i = Ok (Some q')
    /\ forall t, IsQuotaExhausted (Some q') t = Ok (false, zero).
Proof.
  intros Hex Hnot.
  assert (((QuotaInfo.Remaining i =? 0) && (0 <? QuotaInfo.Total i))%bool
          = false) as Hdep.
  { apply not_true_iff_false. intros Hb. apply Hnot.
    apply andb_true_iff in Hb as [Hrem Htot].
    apply Z.eqb_eq in Hrem. apply Z.ltb_lt in Htot. auto. }
  unfold UpdateQuotaFromInfo; cbn -[Z.eqb Z.ltb IsZero IsQuotaExhausted].
  rewrite Hdep.
  eexists; split; [reflexivity|]. intros t.
  rewrite IsQuotaExhausted_some. cbn -[Z.eqb Z.ltb IsZero After].
  rewrite Hex, Hdep. reflexivity.
Qed.

Lemma unknown_is_not_exhaustion_witness :
  exists q',
    UpdateQuotaFromInfo
      (Some (QuotaState.mk false "" zero 0 100 0 zero 5 "api"))
      (QuotaInfo.mk (-1) (-1) 900 "header" 10) = Ok (Some q')
    /\ forall t, IsQuotaExhausted (Some q') t = Ok (false, zero).
Proof.
  apply unknown_is_not_exhaustion; [reflexivity|].
  cbn. intros [Hrem _]. discriminate Hrem.
Defined.

(** X7. An info that shows depletion and carries a reset time exhausts the
    record exactly up to that time, whatever the record held before:
    [IsQuotaExhausted] answers "exhausted until [info.ResetAt]" strictly
    before it and "available" from it on. *)
Theorem depleted_until_reset (q : QuotaState.t) (i : QuotaInfo.t) :
  QuotaInfo.Remaining i = 0 ->
  0 < QuotaInfo.Total i ->
  QuotaInfo.ResetAt i <> zero ->
  exists q',
    UpdateQuotaFromInfo (Some q) i = Ok (Some q')
    /\ Exceeded q' = true
    /\ Reason q' = "quota_exhausted"
    /\ forall t,
         IsQuotaExhausted (Some q') t
         = Ok (if After (QuotaInfo.ResetAt i) t
               then (true, QuotaInfo.ResetAt i) else (false, zero)).
Proof.
  intros Hrem Htot Hreset.
  assert (IsZero (QuotaInfo.ResetAt i) = false) as Hz
    by (apply Z.eqb_neq; exact Hreset).
  unfold UpdateQuotaFromInfo; cbn -[Z.eqb Z.ltb IsZero IsQuotaExhausted].
  rewrite Hrem. apply Z.ltb_lt in Htot. rewrite Htot, Hz.
  cbn -[IsZero IsQuotaExhausted].
  destruct (IsZero (NextRecoverAt q)); cbn -[IsZero IsQuotaExhausted];
    (eexists; split; [reflexivity|]); (split; [reflexivity|]);
    (split; [reflexivity|]); intros t;
    rewrite IsQuotaExhausted_some; cbn -[IsZero After];
    rewrite !Hz; reflexivity.
Qed.

Lemma depleted_until_reset_witness :
  exists q',
    UpdateQuotaFromInfo
      (Some (QuotaState.mk false "" 40 0 (-1) (-1) zero 5 ""))
      (QuotaInfo.mk 1000 0 900 "api" 10) = Ok (Some q')
    /\ Exceeded q' = true
    /\ Reason q' = "quota_exhausted"
    /\ forall t,
         IsQuotaExhausted (Some q') t
         = Ok (if After 900 t then (true, 900) else (false, zero)).
Proof.
  apply (depleted_until_reset _ (QuotaInfo.mk 1000 0 900 "api" 10));
    [reflexivity|reflexivity|discriminate].
Defined.

End QuotaMore.

(* ===================================================================== *)
(** * More on the quota cache *)
(* ===================================================================== *)

Module QuotaCacheMore.

Import QuotaCache QuotaCacheSpec QuotaCacheFacts StringFacts.

(** The answer of [Get] on a cache that is there. *)
Lemma Get_some (c : QuotaCache.t) (p a m : string) (t : Time) :
  Get (Some c) p a m t
  = Ok (match mapLookup (entries c) (quotaCacheKey p a m) with
        | Some (Some e) =>
            if After t (expiresAt e) then (QuotaInfo.empty, false)
            else (info e, true)
        | _ => (QuotaInfo.empty, false)
        end, Some c).
Proof.
  unfold Get; cbn.
  destruct (mapLookup (entries c) (quotaCacheKey p a m)) as [[e|]|];
    cbn; [|reflexivity|reflexivity].
  destruct (After t (expiresAt e)); reflexivity.
Qed.

Lemma Set_some (c : QuotaCache.t)
    (g : gmap string (option quotaCacheEntry)) (p a m : string)
    (i : QuotaInfo.t) (now : Time) :
  entries c = Some g ->
  Set_ (Some c) p a m i now
  = Ok (Some (QuotaCache.mk
                (Some (<[quotaCacheKey p a m :=
                           Some (mkEntry i (Add now (ttl c)))]> g))
                (ttl c))).
Proof. intros Hg. unfold Set_; cbn. rewrite Hg. reflexivity. Qed.

Lemma Invalidate_some (c : QuotaCache.t) (p a m : string) :
  Invalidate (Some c) p a m
  = Ok (Some (QuotaCache.mk (mapDelete (entries c) (quotaCacheKey p a m))
                            (ttl c))).
Proof. reflexivity. Qed.

Lemma Cleanup_some (c : QuotaCache.t) (now : Time) :
  Cleanup (Some c) now
  = Ok (Some (QuotaCache.mk
                match entries c with
                | Some g => Some (filter (fun kv => swept now kv.2 = false) g)
                | None => None
                end (ttl c))).
Proof. reflexivity. Qed.

(** X8. What [Set] stores, [Get] returns for the same key until the TTL
    has run out: after a [Set] at time [now] on a cache with an allocated
    map, [Get] at time [t] hits with the stored info when
    [t <= now + ttl] and misses when [t] is later; neither call changes
    the TTL. *)
Theorem set_get_round_trip (c : QuotaCache.t)
    (g : gmap string (option quotaCacheEntry)) (p a m : string)
    (i : QuotaInfo.t) (now : Time) :
  entries c = Some g ->
  exists c',
    Set_ (Some c) p a m i now = Ok (Some c')
    /\ ttl c' = ttl c
    /\ forall t,
         Get (Some c') p a m t
         = Ok (if After t (Add now (ttl c)) then (QuotaInfo.empty, false)
               else (i, true), Some c').
Proof.
  intros Hg. eexists; split; [apply Set_some; exact Hg|].
  split; [reflexivity|]. intros t.
  rewrite Get_some. cbn [entries mapLookup]. rewrite lookup_insert_eq.
  cbn [expiresAt info]. destruct (After t (Add now (ttl c))); reflexivity.
Qed.

Lemma set_get_round_trip_witness :
  exists c',
    Set_ (Some (QuotaCache.mk (Some ∅) (5 * Minute))) "p" "a" "m"
      (QuotaInfo.mk 1000 250 0 "api" 100) 100 = Ok (Some c')
    /\ ttl c' = 5 * Minute
    /\ forall t,
         Get (Some c') "p" "a" "m" t
         = Ok (if After t (Add 100 (5 * Minute)) then (QuotaInfo.empty, false)
               else (QuotaInfo.mk 1000 250 0 "api" 100, true), Some c').
Proof.
  exact (set_get_round_trip (QuotaCache.mk (Some ∅) (5 * Minute)) ∅
           "p" "a" "m" (QuotaInfo.mk 1000 250 0 "api" 100) 100 eq_refl).
Defined.

(** X9. [Invalidate] removes its key and nothing else: afterwards [Get]
    misses for the key at every time, whatever was stored and however
    fresh, and answers for any other key what it answered before. It
    never panics, allocated map or not. *)
Theorem invalidate_removes_key (c : QuotaCache.t) (p a m : string) :
  exists c',
    Invalidate (Some c) p a m = Ok (Some c')
    /\ ttl c' = ttl c
    /\ (forall t,
          Get (Some c') p a m t = Ok ((QuotaInfo.empty, false), Some c'))
    /\ (forall p' a' m' t,
          quotaCacheKey p' a' m' <> quotaCacheKey p a m ->
          exists answer,
            Get (Some c) p' a' m' t = Ok (answer, Some c)
            /\ Get (Some c') p' a' m' t = Ok (answer, Some c')).
Proof.
  eexists; split; [apply Invalidate_some|].
  split; [reflexivity|]. split.
  - intros t. rewrite Get_some. cbn [entries].
    destruct (entries c) as [g|]; cbn [mapDelete mapLookup];
      [rewrite lookup_delete_eq|]; reflexivity.
  - intros p' a' m' t Hne. eexists. split; [apply Get_some|].
    rewrite Get_some. cbn [entries].
    destruct (entries c) as [g|]; cbn [mapDelete mapLookup]; [|reflexivity].
    rewrite lookup_delete_ne by (intros Heq; apply Hne; symmetry; exact Heq).
    reflexivity.
Qed.

(** X10. [Set] touches its own key only: on a cache with an allocated
    map, [Get] for any other key answers after the [Set] what it answered
    before. *)
Theorem set_leaves_other_keys (c : QuotaCache.t)
    (g : gmap string (option quotaCacheEntry)) (p a m : string)
    (i : QuotaInfo.t) (now : Time) :
  entries c = Some g ->
  exists c',
    Set_ (Some c) p a m i now = Ok (Some c')
    /\ forall p' a' m' t,
         quotaCacheKey p' a' m' <> quotaCacheKey p a m ->
         exists answer,
           Get (Some c) p' a' m' t = Ok (answer, Some c)
           /\ Get (Some c') p' a' m' t = Ok (answer, Some c').
Proof.
  intros Hg. eexists; split; [apply Set_some; exact Hg|].
  intros p' a' m' t Hne.
  eexists. split; [apply Get_some|]. rewrite Get_some.
  cbn [entries mapLookup]. rewrite Hg. cbn [mapLookup].
  rewrite lookup_insert_ne by (intros Heq; apply Hne; symmetry; exact Heq).
  reflexivity.
Qed.

Lemma set_leaves_other_keys_witness :
  exists c',
    Set_ (Some (QuotaCache.mk (Some ∅) Minute)) "p" "a" "m" QuotaInfo.empty 7
    = Ok (Some c')
    /\ forall p' a' m' t,
         quotaCacheKey p' a' m' <> quotaCacheKey "p" "a" "m" ->
         exists answer,
           Get (Some (QuotaCache.mk (Some ∅) Minute)) p' a' m' t
           = Ok (answer, Some (QuotaCache.mk (Some ∅) Minute))
           /\ Get (Some c') p' a' m' t = Ok (answer, Some c').
Proof.
  exact (set_leaves_other_keys (QuotaCache.mk (Some ∅) Minute) ∅
           "p" "a" "m" QuotaInfo.empty 7 eq_refl).
Defined.

(** X11. [Cleanup] cannot be observed through [Get]: for every key, [Get]
    at the time of the sweep or later answers after the sweep what it
    would have answered without it. The sweep only removes entries that
    [Get] would miss anyway. *)
Theorem cleanup_is_invisible (c : QuotaCache.t) (now t : Time)
    (p a m : string) :
  now <= t ->
  exists c' answer,
    Cleanup (Some c) now = Ok (Some c')
    /\ ttl c' = ttl c
    /\ Get (Some c) p a m t = Ok (answer, Some c)
    /\ Get (Some c') p a m t = Ok (answer, Some c').
Proof.
  intros Hle.
  eexists; eexists. split; [apply Cleanup_some|]. split; [reflexivity|].
  split; [apply Get_some|]. rewrite Get_some. cbn [entries].
  destruct (entries c) as [g|]; cbn [mapLookup]; [|reflexivity].
  set (k := quotaCacheKey p a m).
  destruct (g !! k) as [entry|] eqn:Hk.
  - destruct (swept now entry) eqn:Hs.
    + assert (filter (fun kv => swept now kv.2 = false) g !! k = None) as ->.
      { apply map_lookup_filter_None. right. intros x Hx. cbn.
        rewrite Hk in Hx. injection Hx as <-. rewrite Hs. discriminate. }
      destruct entry as [e|]; [|reflexivity]. cbn in Hs.
      unfold After in *. apply Z.ltb_lt in Hs.
      assert ((expiresAt e <? t) = true) as -> by (apply Z.ltb_lt; lia).
      reflexivity.
    + assert (filter (fun kv => swept now kv.2 = false) g !! k = Some entry)
        as ->; [|reflexivity].
      apply map_lookup_filter_Some. split; [exact Hk|exact Hs].
  - assert (filter (fun kv => swept now kv.2 = false) g !! k = None) as ->;
      [|reflexivity].
    apply map_lookup_filter_None. left. exact Hk.
Qed.

Lemma cleanup_is_invisible_witness :
  exists c' answer,
    Cleanup
      (Some (QuotaCache.mk
               (Some {[ "p:a:m" := Some (mkEntry QuotaInfo.empty 50);
                        "p:a:n" := Some (mkEntry QuotaInfo.empty 500) ]})
               Minute)) 100
    = Ok (Some c')
    /\ ttl c' = Minute
    /\ Get (Some (QuotaCache.mk
                    (Some {[ "p:a:m" := Some (mkEntry QuotaInfo.empty 50);
                             "p:a:n" := Some (mkEntry QuotaInfo.empty 500) ]})
                    Minute)) "p" "a" "n" 200
       = Ok (answer,
             Some (QuotaCache.mk
                     (Some {[ "p:a:m" := Some (mkEntry QuotaInfo.empty 50);
                              "p:a:n" := Some (mkEntry QuotaInfo.empty 500) ]})
                     Minute))
    /\ Get (Some c') "p" "a" "n" 200 = Ok (answer, Some c').
Proof.
  apply cleanup_is_invisible. lia.
Defined.

(** Two strings that agree up to their first colon. *)
Lemma split_at_colon (x y r s : string) :
  colonFree x = true -> colonFree y = true ->
  x +:+ String ":" r = y +:+ String ":" s ->
  x = y /\ r = s.
Proof.
  unfold colonFree. revert y. induction x as [|c x IH]; intros [|d y]; cbn.
  - intros _ _ [= ->]. auto.
  - intros _ Hy. rewrite app_nil_l, app_cons. intros [= <- _].
    cbn in Hy. discriminate.
  - intros Hx _. rewrite app_nil_l, app_cons. intros [= -> _].
    cbn in Hx. discriminate.
  - rewrite !andb_true_iff, !app_cons. intros [_ Hx] [_ Hy] [= -> Heq].
    destruct (IH y Hx Hy Heq) as [-> ->]. auto.
Qed.

(** X12. The cache key tells the triples apart as long as provider and
    auth id hold no colon: two triples with colon-free providers and auth
    ids that get the same key are equal. The condition is needed, since
    the triples (["a:b"], ["c"], ["d"]) and (["a"], ["b:c"], ["d"]) share
    the key ["a:b:c:d"]. *)
Theorem quotaCacheKey_injective (p a m p' a' m' : string) :
  colonFree p = true -> colonFree a = true ->
  colonFree p' = true -> colonFree a' = true ->
  quotaCacheKey p a m = quotaCacheKey p' a' m' ->
  p = p' /\ a = a' /\ m = m'.
Proof.
  intros Hp Ha Hp' Ha' Hkey. unfold quotaCacheKey in Hkey.
  change (p +:+ String ":" (a +:+ String ":" m)
          = p' +:+ String ":" (a' +:+ String ":" m')) in Hkey.
  destruct (split_at_colon _ _ _ _ Hp Hp' Hkey) as [-> Hrest].
  destruct (split_at_colon _ _ _ _ Ha Ha' Hrest) as [-> ->]. auto.
Qed.

Lemma quotaCacheKey_injective_witness :
  "claude" = "claude" /\ "acct-1" = "acct-1" /\ "opus:latest" = "opus:latest".
Proof.
  apply (quotaCacheKey_injective "claude" "acct-1" "opus:latest"
           "claude" "acct-1" "opus:latest"); reflexivity.
Defined.

(** X13. A cache built by [NewQuotaCache] and the methods has an allocated
    map without nil entries and a positive TTL, so that no method panics
    on it and an info just stored is found: [Get] at the time of the
    [Set] hits. *)
Theorem built_cache_is_sound (c : option QuotaCache.t) :
  built c ->
  (exists cc, c = Some cc /\ allocated cc /\ 0 < ttl cc)
  /\ forall p a m i now,
       exists c',
         Set_ c p a m i now = Ok (Some c')
         /\ Get (Some c') p a m now = Ok ((i, true), Some c')
         /\ (exists c2, Invalidate c p a m = Ok (Some c2))
         /\ (exists c3, Cleanup c now = Ok (Some c3)).
Proof.
  intros Hb.
  assert (exists cc, c = Some cc /\ allocated cc /\ 0 < ttl cc) as Hinv.
  { induction Hb as [d|c c' p a m i now _ IH Hset|c c' p a m _ IH Hinv
                     |c c' now _ IH Hclean].
    - eexists. split; [apply NewQuotaCache_ttl|]. split.
      + exists ∅. split; [reflexivity|]. intros k. rewrite lookup_empty.
        discriminate.
      + cbn [ttl]. destruct (d <=? 0) eqn:Hd; [reflexivity|].
        apply Z.leb_gt in Hd. exact Hd.
    - destruct IH as [cc [-> [Hal Httl]]].
      destruct (Set_allocated cc p a m i now Hal) as [c2 [Hc2 Hal2]].
      rewrite Hc2 in Hset. injection Hset as <-.
      exists c2. split; [reflexivity|]. split; [exact Hal2|].
      destruct Hal as [g [Hg _]]. unfold Set_ in Hc2; cbn in Hc2.
      rewrite Hg in Hc2; cbn in Hc2. injection Hc2 as <-. exact Httl.
    - destruct IH as [cc [-> [Hal Httl]]].
      destruct (Invalidate_allocated cc p a m Hal) as [c2 [Hc2 Hal2]].
      rewrite Hc2 in Hinv. injection Hinv as <-.
      exists c2. split; [reflexivity|]. split; [exact Hal2|].
      unfold Invalidate in Hc2; cbn in Hc2. injection Hc2 as <-. exact Httl.
    - destruct IH as [cc [-> [Hal Httl]]].
      destruct (Cleanup_allocated cc now Hal) as [c2 [Hc2 Hal2]].
      rewrite Hc2 in Hclean. injection Hclean as <-.
      exists c2. split; [reflexivity|]. split; [exact Hal2|].
      unfold Cleanup in Hc2; cbn -[filter] in Hc2. injection Hc2 as <-.
      exact Httl. }
  split; [exact Hinv|].
  destruct Hinv as [cc [-> [[g [Hg Hnn]] Httl]]]. intros p a m i now.
  destruct (set_get_round_trip cc g p a m i now Hg) as [c' [Hset [_ Hget]]].
  exists c'. split; [exact Hset|]. split.
  - rewrite Hget. unfold After, Add.
    assert ((now + ttl cc <? now) = false) as -> by (apply Z.ltb_ge; lia).
    reflexivity.
  - split; eexists; reflexivity.
Qed.

Lemma built_cache_is_sound_witness :
  (exists cc, NewQuotaCache (-3) = Some cc /\ allocated cc /\ 0 < ttl cc)
  /\ forall p a m i now,
       exists c',
         Set_ (NewQuotaCache (-3)) p a m i now = Ok (Some c')
         /\ Get (Some c') p a m now = Ok ((i, true), Some c')
         /\ (exists c2, Invalidate (NewQuotaCache (-3)) p a m = Ok (Some c2))
         /\ (exists c3, Cleanup (NewQuotaCache (-3)) now = Ok (Some c3)).
Proof.
  apply built_cache_is_sound. apply built_new.
Defined.

(** On a [QuotaCache] whose map was never allocated (the zero value
    of the struct) [Set] panics, as an assignment to an entry of a nil map
    does, whereas [Get] misses and [Invalidate] and [Cleanup] return with
    the cache as it was. *)
Remark zero_value_cache (d : Duration) (p a m : string) (i : QuotaInfo.t)
    (now : Time) :
  let c := QuotaCache.mk None d in
  Set_ (Some c) p a m i now = Panic
  /\ Get (Some c) p a m now = Ok ((QuotaInfo.empty, false), Some c)
  /\ Invalidate (Some c) p a m = Ok (Some c)
  /\ Cleanup (Some c) now = Ok (Some c).
Proof. repeat split. Qed.

End QuotaCacheMore.

(* ===================================================================== *)
(** * More on base-name extraction *)
(* ===================================================================== *)

Module BaseNameMore.

Import StringFacts BaseNameFacts RouterSpec.

Lemma Join_app (l1 l2 : list string) (sep : string) :
  l1 <> [] -> l2 <> [] ->
  Join (l1 ++ l2) sep = Join l1 sep +:+ sep +:+ Join l2 sep.
Proof.
  intros H1 H2. induction l1 as [|x l1 IH]; [congruence|].
  destruct l1 as [|y l1].
  - destruct l2 as [|z l2]; [congruence|]. reflexivity.
  - change ((x :: y :: l1) ++ l2) with (x :: y :: (l1 ++ l2)).
    rewrite !Join_cons.
    change (y :: l1 ++ l2) with ((y :: l1) ++ l2).
    rewrite IH by discriminate. rewrite <- !app_assoc. reflexivity.
Qed.

(** [Split] on a piece without the separator, followed by the separator. *)
Lemma Split_app_sep (x y : string) (sep : ascii) :
  allBytes (fun c => negb (Ascii.eqb c sep)) x = true ->
  Split (x +:+ String sep y) sep = x :: Split y sep.
Proof.
  induction x as [|c x IH]; cbn [allBytes].
  - intros _. rewrite app_nil_l. cbn [Split]. rewrite Ascii.eqb_refl.
    reflexivity.
  - rewrite andb_true_iff, negb_true_iff. intros [Hc Hx].
    rewrite app_cons. cbn [Split]. rewrite Hc, (IH Hx). reflexivity.
Qed.

Lemma Split_sepFree (x : string) (sep : ascii) :
  allBytes (fun c => negb (Ascii.eqb c sep)) x = true ->
  Split x sep = [x].
Proof.
  induction x as [|c x IH]; cbn [allBytes]; [reflexivity|].
  rewrite andb_true_iff, negb_true_iff. intros [Hc Hx].
  cbn [Split]. rewrite Hc, (IH Hx). reflexivity.
Qed.

(** Splitting what was joined gives the pieces back, when no piece holds
    the separator. *)
Lemma Split_Join (l : list string) (sep : ascii) :
  l <> [] ->
  Forall (fun x => allBytes (fun c => negb (Ascii.eqb c sep)) x = true) l ->
  Split (Join l (String sep "")) sep = l.
Proof.
  intros Hne Hl. induction Hl as [|x l Hx Hl IH]; [congruence|].
  destruct l as [|y l].
  - apply Split_sepFree. exact Hx.
  - rewrite Join_cons.
    change (x +:+ String sep "" +:+ Join (y :: l) (String sep ""))
      with (x +:+ String sep (Join (y :: l) (String sep ""))).
    rewrite (Split_app_sep _ _ _ Hx), IH by discriminate. reflexivity.
Qed.

Lemma allBytes_impl (P Q : ascii -> bool) (s : string) :
  (forall c, P c = true -> Q c = true) ->
  allBytes P s = true -> allBytes Q s = true.
Proof.
  intros HPQ. induction s as [|c s IH]; [reflexivity|]. cbn.
  rewrite !andb_true_iff. intros [Hc Hs]. auto.
Qed.

Lemma allBytes_ToLower (P : ascii -> bool) (s : string) :
  allBytes P (ToLower s) = allBytes (fun c => P (lowerByte c)) s.
Proof.
  induction s as [|c s IH]; [reflexivity|]. cbn. rewrite IH. reflexivity.
Qed.

Lemma len_ToLower (s : string) : len (ToLower s) = len s.
Proof.
  unfold len. induction s as [|c s IH]; [reflexivity|]. cbn. f_equal. exact IH.
Qed.

Lemma lowerByte_dash (c : ascii) :
  negb (Ascii.eqb (lowerByte c) "-") = negb (Ascii.eqb c "-").
Proof. destruct c as [[] [] [] [] [] [] [] []]; reflexivity. Qed.

(** A strippable segment holds no hyphen. *)
Lemma strippable_dashFree (part : string) :
  strippable part = true -> dashFree part = true.
Proof.
  unfold strippable, dashFree. rewrite orb_true_iff. intros [Hdate|Hver].
  - unfold isDateLikeSuffix in Hdate.
    destruct (len part <? 4)%nat; [discriminate|].
    destruct (allBytes isDigit part) eqn:Hd; [|discriminate].
    revert Hd. apply allBytes_impl.
    intros c. destruct c as [[] [] [] [] [] [] [] []]; vm_compute; congruence.
  - unfold isVersionSuffix in Hver.
    apply (allBytes_impl (fun c => negb (Ascii.eqb (lowerByte c) "-")));
      [intros c Hc; rewrite <- lowerByte_dash; exact Hc|].
    assert (allBytes (fun c => negb (Ascii.eqb c "-")) (ToLower part) = true)
      as Hlow.
    { destruct (String.eqb_spec (ToLower part) "latest") as [->|_];
        [reflexivity|].
      destruct (String.eqb_spec (ToLower part) "preview") as [->|_];
        [reflexivity|].
      destruct (String.eqb_spec (ToLower part) "beta") as [->|_];
        [reflexivity|].
      destruct (String.eqb_spec (ToLower part) "alpha") as [->|_];
        [reflexivity|].
      cbn [orb] in Hver.
      destruct (ToLower part) as [|c rest]; [discriminate|].
      destruct (Ascii.eqb_spec c "v") as [->|Hc].
      - destruct (2 <=? len (String "v" rest))%nat; [|discriminate].
        cbn [allBytes]. cbn [Ascii.eqb negb andb Bool.eqb].
        revert Hver. apply allBytes_impl.
        intros c. destruct c as [[] [] [] [] [] [] [] []]; vm_compute; congruence.
      - exfalso. destruct c as [[] [] [] [] [] [] [] []];
          try discriminate Hver. apply Hc. reflexivity. }
    rewrite allBytes_ToLower in Hlow. exact Hlow.
Qed.

(** [scanCut] on one unstrippable segment followed by strippable ones. *)
Lemma scanCut_head (p : string) (stripped : list string) :
  strippable p = false ->
  Forall (fun x => strippable x = true) stripped ->
  scanCut (p :: stripped) (length (p :: stripped)) (length (p :: stripped))
  = 1%nat.
Proof.
  intros Hp Hs.
  destruct (scanCut_spec (p :: stripped) (length (p :: stripped))
              ltac:(lia)) as [Hk [Hf Hstop]].
  { rewrite drop_all. constructor. }
  set (k := scanCut _ _ _) in *. clearbody k.
  destruct k as [|[|k]]; [|reflexivity|].
  - cbn in Hf. apply Forall_cons in Hf as [Hp' _]. congruence.
  - destruct Hstop as [Hk0|[q [Hq Hqs]]]; [discriminate|].
    cbn in Hq. rewrite ?Nat.sub_0_r in Hq.
    rewrite Forall_lookup in Hs. rewrite (Hs _ _ Hq) in Hqs. discriminate.
Qed.

Lemma base_name_prefix (modelName : string) :
  exists rest,
    TrimSpace modelName = extractBaseModelName modelName +:+ rest.
Proof.
  destruct (extractBaseModelName_spec modelName)
    as [kept [stripped [Hsplit [_ [_ Hres]]]]].
  pose proof (Join_Split (TrimSpace modelName) "-") as Hjoin.
  rewrite Hsplit in Hjoin. rewrite Hres. destruct kept as [|p kept'].
  - exists "". symmetry. apply app_nil_r.
  - destruct stripped as [|q stripped'].
    + exists "". rewrite app_nil_r. rewrite List.app_nil_r in Hjoin.
      symmetry. exact Hjoin.
    + exists ("-" +:+ Join (q :: stripped') "-").
      rewrite <- Hjoin. apply Join_app; discriminate.
Qed.

(** X14. The base name is what is left of the trimmed model name when the
    longest run of strippable segments is cut off its end: the segments
    split into the kept ones and the stripped ones, every stripped segment
    is strippable, the last kept segment is not, the result is the kept
    segments joined by hyphens (or the whole trimmed name when nothing
    would be kept), and it is always a prefix of the trimmed name. *)
Theorem base_name_is_prefix (modelName : string) :
  exists (kept stripped : list string) (rest : string),
    Split (TrimSpace modelName) "-" = kept ++ stripped
    /\ Forall (fun p => strippable p = true) stripped
    /\ (kept = [] \/ exists p, last kept = Some p /\ strippable p = false)
    /\ extractBaseModelName modelName
       = match kept with
         | [] => TrimSpace modelName
         | _ => Join kept "-"
         end
    /\ TrimSpace modelName = extractBaseModelName modelName +:+ rest.
Proof.
  destruct (extractBaseModelName_spec modelName)
    as [kept [stripped [Hsplit [Hs [Hlast Hres]]]]].
  destruct (base_name_prefix modelName) as [rest Hrest].
  exists kept, stripped, rest. auto.
Qed.

(** X15. The base name is empty in two cases only: the trimmed model name
    is empty, or it is a hyphen followed by strippable segments (such as
    ["-2024"] or ["-v2-latest"]), where the one segment kept is the empty
    one before the first hyphen. In every other case a non-empty base name
    is returned. *)
Theorem base_name_empty_iff (modelName : string) :
  extractBaseModelName modelName = ""
  <-> TrimSpace modelName = ""
      \/ exists stripped,
           stripped <> []
           /\ Forall (fun p => strippable p = true) stripped
           /\ TrimSpace modelName = "-" +:+ Join stripped "-".
Proof.
  split.
  - intros Hempty.
    destruct (extractBaseModelName_spec modelName)
      as [kept [stripped [Hsplit [Hs [Hlast Hres]]]]].
    pose proof (Join_Split (TrimSpace modelName) "-") as Hjoin.
    rewrite Hsplit in Hjoin. rewrite Hempty in Hres.
    destruct kept as [|p kept']; [left; symmetry; exact Hres|].
    destruct kept' as [|p' kept''].
    + cbn in Hres. subst p. destruct stripped as [|q stripped'].
      * left. rewrite <- Hjoin. reflexivity.
      * right. exists (q :: stripped'). split; [discriminate|].
        split; [exact Hs|]. rewrite <- Hjoin. reflexivity.
    + rewrite Join_cons in Hres. destruct p; discriminate.
  - intros [Hempty|[stripped [Hne [Hs Hname]]]].
    + unfold extractBaseModelName. rewrite Hempty. reflexivity.
    + unfold extractBaseModelName. rewrite Hname.
      assert (Split ("-" +:+ Join stripped "-") "-" = "" :: stripped) as ->.
      { change ("-" +:+ Join stripped "-")
          with ("" +:+ String "-" (Join stripped (String "-" ""))).
        rewrite Split_app_sep by reflexivity. f_equal.
        apply Split_Join; [exact Hne|].
        eapply Forall_impl; [exact Hs|]. intros x Hx.
        apply strippable_dashFree. exact Hx. }
      rewrite scanCut_head by (reflexivity || exact Hs).
      destruct stripped as [|q stripped']; [congruence|]. reflexivity.
Qed.

End BaseNameMore.

(* ===================================================================== *)
(** * More on the wildcard matcher *)
(* ===================================================================== *)

Module WildcardMore.

Import Glob StringFacts GlobFacts.

Lemma Contains_spec (s sub : string) :
  Contains s sub = true <-> exists u v, s = u +:+ sub +:+ v.
Proof.
  unfold Contains, Index. split.
  - destruct (indexOf s sub) as [i|] eqn:Hi; [|discriminate].
    intros _. destruct (indexOf_Some _ _ _ Hi) as [u [v [Hs _]]]. eauto.
  - intros [u [v Hs]]. destruct (indexOf_first _ _ _ _ Hs) as [i [-> _]].
    apply Z.leb_le. lia.
Qed.

Lemma ToLower_app (s t : string) :
  ToLower (s +:+ t) = ToLower s +:+ ToLower t.
Proof.
  induction s as [|c s IH]; [reflexivity|].
  rewrite app_cons. cbn [ToLower]. rewrite IH. reflexivity.
Qed.

Lemma lowerByte_star (c : ascii) :
  negb (Ascii.eqb (lowerByte c) "*") = negb (Ascii.eqb c "*").
Proof. destruct c as [[] [] [] [] [] [] [] []]; reflexivity. Qed.

Lemma starFree_ToLower (s : string) : starFree (ToLower s) = starFree s.
Proof.
  unfold starFree. induction s as [|c s IH]; [reflexivity|]. cbn.
  rewrite lowerByte_star, IH. reflexivity.
Qed.

Lemma ToLower_empty (s : string) : ToLower s = "" <-> s = "".
Proof. destruct s; cbn; split; congruence. Qed.

(** X16. The four common shapes of a pattern, for a piece [x] without
    [*], all without regard to case: [x] alone matches the texts equal to
    [x]; [*x*] matches the texts that contain [x]; [x*] those that start
    with [x]; [*x] those that end with [x]. *)
Theorem wildcard_shapes (x text : string) :
  starFree x = true ->
  (matchWildcard x text = true <-> ToLower text = ToLower x)
  /\ (matchWildcard ("*" +:+ x +:+ "*") text = true
      <-> Contains (ToLower text) (ToLower x) = true)
  /\ (matchWildcard (x +:+ "*") text = true
      <-> HasPrefix (ToLower text) (ToLower x) = true)
  /\ (matchWildcard ("*" +:+ x) text = true
      <-> HasSuffix (ToLower text) (ToLower x) = true).
Proof.
  intros Hx. rewrite <- starFree_ToLower in Hx.
  rewrite !matchWildcard_spec, !ToLower_app.
  set (lx := ToLower x) in *. set (lt := ToLower text).
  change (ToLower "*") with "*".
  change ("*" +:+ lx +:+ "*") with (String "*" (lx +:+ String "*" "")).
  change (lx +:+ "*") with (lx +:+ String "*" "").
  change ("*" +:+ lx) with (String "*" lx).
  split; [apply matches_starFree; exact Hx|]. split; [|split].
  - rewrite matches_star, Contains_spec. split.
    + intros [u [v [-> Hv]]].
      apply matches_prefix in Hv as [w [-> _]]; [|exact Hx]. eauto.
    + intros [u [v ->]]. exists u, (lx +:+ v). split; [reflexivity|].
      apply matches_prefix; [exact Hx|]. exists v.
      split; [reflexivity|apply matches_star_any].
  - rewrite (matches_prefix lx "" lt Hx), HasPrefix_spec. split.
    + intros [w [-> _]]. eauto.
    + intros [w ->]. exists w. split; [reflexivity|apply matches_star_any].
  - rewrite matches_star, HasSuffix_spec. split.
    + intros [u [v [-> Hv]]]. apply matches_starFree in Hv as ->; eauto.
    + intros [u ->]. exists u, lx. split; [reflexivity|].
      by apply matches_starFree.
Qed.

Lemma wildcard_shapes_witness :
  matchWildcard ("*" +:+ "GPT-5" +:+ "*") "openai-gpt-5-codex" = true
  <-> Contains (ToLower "openai-gpt-5-codex") (ToLower "GPT-5") = true.
Proof.
  apply (wildcard_shapes "GPT-5" "openai-gpt-5-codex"). reflexivity.
Defined.

Lemma matches_all_stars (p t : string) :
  allBytes (Ascii.eqb "*") p = true -> p <> "" -> matches p t.
Proof.
  induction p as [|c p IH]; [congruence|]. cbn [allBytes].
  rewrite andb_true_iff. intros [Hc Hp] _.
  apply Ascii.eqb_eq in Hc as <-. apply matches_star.
  destruct p as [|d p'].
  - exists t, "". split; [symmetry; apply app_nil_r|constructor].
  - exists "", t. split; [reflexivity|]. apply IH; [exact Hp|discriminate].
Qed.

(** X17. The two extreme patterns: a pattern made of [*] only, however
    many, matches every text, and the empty pattern matches the empty text
    and no other. *)
Theorem wildcard_extremes (pattern text : string) :
  (allBytes (Ascii.eqb "*") pattern = true -> pattern <> "" ->
   matchWildcard pattern text = true)
  /\ (matchWildcard "" text = true <-> text = "").
Proof.
  split.
  - intros Hstars Hne. apply matchWildcard_spec.
    apply matches_all_stars.
    + rewrite BaseNameMore.allBytes_ToLower.
      revert Hstars. apply BaseNameMore.allBytes_impl.
      intros c Hc. apply Ascii.eqb_eq in Hc as <-. reflexivity.
    + rewrite ToLower_empty. exact Hne.
  - rewrite matchWildcard_spec. change (ToLower "") with "".
    rewrite (matches_starFree "" _ eq_refl). apply ToLower_empty.
Qed.

Lemma wildcard_extremes_witness :
  matchWildcard "***" "anything at all" = true.
Proof.
  apply (proj1 (wildcard_extremes "***" "anything at all"));
    [reflexivity|discriminate].
Defined.

End WildcardMore.

(* ===================================================================== *)
(** * More on the router: configuration and rule lookup *)
(* ===================================================================== *)

Module RouterMore.

Import Config Router RouterSpec RouterFacts.

Lemma find_filter {A : Type} (p q : A -> bool) (l : list A) :
  List.find p (List.filter q l) = List.find (fun x => q x && p x)%bool l.
Proof.
  induction l as [|x l IH]; [reflexivity|]. cbn.
  destruct (q x); cbn; [destruct (p x)|]; auto.
Qed.

(** The index the loop of [UpdateConfig] builds from any starting index:
    the fuzzy list grows by the loaded fuzzy rules, in order, and a key of
    the exact index holds the last loaded exact rule for it. *)
Lemma foldl_indexStep (l : list ModelRouteEntry)
    (m : gmap string ModelRouteEntry) (f : list ModelRouteEntry) :
  exists m',
    foldl indexStep (m, f) l = (m', f ++ List.filter loadedFuzzy l)
    /\ forall k, m' !! k = match last (List.filter (loadedExact k) l) with
                           | Some entry => Some entry
                           | None => m !! k
                           end.
Proof.
  revert m f. induction l as [|e l IH]; intros m f.
  - exists m. cbn. rewrite List.app_nil_r. auto.
  - cbn [foldl]. unfold indexStep at 2.
    unfold loadedFuzzy, loadedExact, loaded. cbn [List.filter].
    destruct (String.eqb (TrimSpace (Name e)) "") eqn:Hblank; cbn [negb andb].
    + apply IH.
    + destruct (Fuzzy e) eqn:Hf; cbn [negb andb].
      * destruct (IH m (f ++ [e])) as [m' [Hfold Hm']].
        exists m'. rewrite Hfold, <- List.app_assoc. auto.
      * destruct (IH (<[ToLower (TrimSpace (Name e)) := e]> m) f)
          as [m' [Hfold Hm']].
        exists m'. split; [exact Hfold|]. intros k. rewrite Hm'.
        destruct (String.eqb_spec (ToLower (TrimSpace (Name e))) k)
          as [->|Hne].
        -- rewrite last_cons, lookup_insert_eq.
           destruct (last _); reflexivity.
        -- rewrite lookup_insert_ne by exact Hne. reflexivity.
Qed.

Lemma trimRight_cons (c : ascii) (s : string) :
  trimRight (String c s)
  = match trimRight s with
    | EmptyString => if isSpace c then EmptyString else String c EmptyString
    | r => String c r
    end.
Proof. reflexivity. Qed.

Lemma trimRight_idem (s : string) : trimRight (trimRight s) = trimRight s.
Proof.
  induction s as [|c s IH]; [reflexivity|]. rewrite trimRight_cons.
  destruct (trimRight s) as [|d t] eqn:Ht.
  - destruct (isSpace c) eqn:Hc; [reflexivity|].
    rewrite trimRight_cons. cbn [trimRight]. rewrite Hc. reflexivity.
  - rewrite trimRight_cons, IH. reflexivity.
Qed.

Lemma trimLeft_head (s : string) :
  trimLeft s = "" \/ exists c r, trimLeft s = String c r /\ isSpace c = false.
Proof.
  induction s as [|c s IH]; [left; reflexivity|]. cbn.
  destruct (isSpace c) eqn:Hc; [exact IH|]. right. eauto.
Qed.

(** Trimming a trimmed string changes nothing. *)
Lemma TrimSpace_idem (s : string) : TrimSpace (TrimSpace s) = TrimSpace s.
Proof.
  unfold TrimSpace.
  destruct (trimLeft_head s) as [->|[c [r [-> Hc]]]]; [reflexivity|].
  assert (exists r', trimRight (String c r) = String c r') as [r' Hr'].
  { cbn. destruct (trimRight r); [rewrite Hc|]; eauto. }
  rewrite Hr'. cbn [trimLeft]. rewrite Hc.
  rewrite <- Hr'. apply trimRight_idem.
Qed.

Section WithCollaborators.
Context `{Collaborators}.

(** X18. The rule that answers for a model name after [UpdateConfig] with
    an enabled configuration, read off the rule list: the last rule that
    is not fuzzy and whose trimmed name equals the model name, case apart;
    failing that, the first fuzzy rule whose name, as written and case
    apart, occurs in the model name. Rules with a blank name are never
    used, and an exact rule wins over every fuzzy one. *)
Theorem rule_lookup_after_UpdateConfig (r : ModelRouter)
    (c : ModelRoutingConfig) (authDir modelName : string) :
  Enabled c = true ->
  findRouteEntry (UpdateConfig r (Some c) authDir) modelName
  = match last (List.filter (loadedExact (ToLower modelName)) (Routes c)) with
    | Some entry => Some entry
    | None =>
        List.find (fun entry =>
                     loadedFuzzy entry
                     && Contains (ToLower modelName) (ToLower (Name entry)))%bool
                  (Routes c)
    end.
Proof.
  intros Hen. unfold UpdateConfig. cbn [isNil from_option orb negb cache].
  rewrite Hen. cbn [negb].
  destruct (foldl_indexStep (Routes c) ∅ []) as [m' [Hfold Hm']].
  rewrite Hfold. unfold findRouteEntry. cbn [routes fuzzy app].
  rewrite Hm', lookup_empty, find_filter.
  destruct (last _); reflexivity.
Qed.

(** X19. A nil or disabled configuration turns the router into a no-op:
    after [UpdateConfig] both indexes are empty and the cache binding is
    the one the router had, [GetCandidates] returns nothing for every
    name, and [RecordSuccess] leaves the router as it is. *)
Theorem disabled_router_is_inert (r : ModelRouter)
    (c : option ModelRoutingConfig) (authDir : string) :
  from_option Enabled false c = false ->
  let r' := UpdateConfig r c authDir in
  IsEnabled r' = false
  /\ routes r' = ∅ /\ fuzzy r' = [] /\ cache r' = cache r
  /\ (forall modelName, GetCandidates r' modelName = [])
  /\ (forall v a, RecordSuccess r' v a = r').
Proof.
  intros Hdis. cbv zeta.
  assert (UpdateConfig r c authDir = mkRouter c (cache r) ∅ []) as ->.
  { unfold UpdateConfig. rewrite Hdis. cbn [negb].
    rewrite orb_true_r. reflexivity. }
  assert (IsEnabled (mkRouter c (cache r) ∅ []) = false) as Hoff.
  { unfold IsEnabled. cbn [cfg]. destruct c; [exact Hdis|reflexivity]. }
  repeat split; try exact Hoff.
  - intros modelName. unfold GetCandidates. rewrite Hoff. reflexivity.
  - intros v a. unfold RecordSuccess. rewrite Hoff. reflexivity.
Qed.

(** X20. [GetCandidates] does not see white space around the requested
    name, and the rule lookup does not see its case: the candidates of a
    name and of the trimmed name are the same, and a name and its
    lower-case form find the same rule. *)
Theorem lookup_ignores_space_and_case (r : ModelRouter) (modelName : string) :
  GetCandidates r (TrimSpace modelName) = GetCandidates r modelName
  /\ findRouteEntry r (ToLower modelName) = findRouteEntry r modelName.
Proof.
  split.
  - unfold GetCandidates. rewrite TrimSpace_idem. reflexivity.
  - unfold findRouteEntry. rewrite GlobFacts.ToLower_idem. reflexivity.
Qed.

End WithCollaborators.

(** A blank rule is skipped, the later of two exact rules wins, and the
    exact rule is preferred to the fuzzy one that also applies. *)
Lemma rule_lookup_after_UpdateConfig_witness :
  findRouteEntry
    (@UpdateConfig Demo.collaborators (mkRouter None None ∅ [])
       (Some (Config.mk true false
                [Config.mkEntry " Fast " false ["a"];
                 Config.mkEntry "fa" true ["b"];
                 Config.mkEntry "   " false ["c"];
                 Config.mkEntry "FAST" false ["d"]]
                "" None)) "auth")
    "fast"
  = Some (Config.mkEntry "FAST" false ["d"]).
Proof.
  rewrite (@rule_lookup_after_UpdateConfig Demo.collaborators
             (mkRouter None None ∅ [])
             (Config.mk true false
                [Config.mkEntry " Fast " false ["a"];
                 Config.mkEntry "fa" true ["b"];
                 Config.mkEntry "   " false ["c"];
                 Config.mkEntry "FAST" false ["d"]]
                "" None) "auth" "fast" eq_refl).
  reflexivity.
Defined.

Lemma disabled_router_is_inert_witness :
  let r' := @UpdateConfig Demo.collaborators (Demo.router true) None "auth" in
  IsEnabled r' = false
  /\ routes r' = ∅ /\ fuzzy r' = [] /\ cache r' = cache (Demo.router true)
  /\ (forall modelName, @GetCandidates Demo.collaborators r' modelName = [])
  /\ (forall v a, RecordSuccess r' v a = r').
Proof.
  exact (@disabled_router_is_inert Demo.collaborators (Demo.router true)
           None "auth" eq_refl).
Defined.

End RouterMore.

(* ===================================================================== *)
(** * More on auto-discovery and ranking *)
(* ===================================================================== *)

Module DiscoveryMore.

Import Config Router RouterSpec SortFacts RankingFacts StringFacts.

(** The ranking rearranges the ids of the candidates, with or without a
    priority list. *)
Lemma sort_ids_Permutation (r : ModelRouter) (candidates : list candidateInfo)
    (baseName : string) :
  Permutation (sortCandidatesByProviderPriority r candidates baseName)
              (map modelID candidates).
Proof.
  unfold sortCandidatesByProviderPriority.
  destruct (length _ =? 0)%nat; [reflexivity|]. cbv zeta.
  apply Permutation_map.
  exact (SliceStable_Permutation
           (fun c => getBestProviderPriority (providers c)
                       (fillPriorityMap 0
                          (priorityListOf r (inferModelFamily baseName)) ∅))
           candidates).
Qed.

(** X21. The ranking neither loses nor invents a candidate: whatever the
    priority configuration, the ids it returns are the ids of the
    candidates, rearranged. *)
Theorem ranking_keeps_candidates (r : ModelRouter)
    (candidates : list candidateInfo) (baseName : string) :
  Permutation (sortCandidatesByProviderPriority r candidates baseName)
              (map modelID candidates)
  /\ length (sortCandidatesByProviderPriority r candidates baseName)
     = length candidates.
Proof.
  pose proof (sort_ids_Permutation r candidates baseName) as Hp.
  split; [exact Hp|].
  rewrite (Permutation_length Hp). apply length_map.
Qed.

Section WithCollaborators.
Context `{Collaborators}.

Lemma autoSearchStep_eq (lowerBase : string) (infos : list candidateInfo)
    (seen : gset string) (model : option string) :
  autoSearchStep lowerBase (infos, seen) model
  = match model with
    | Some m =>
        if (discoverable lowerBase m && negb (bool_decide (m ∈ seen)))%bool
        then (infos ++ [mkInfo m (GetProviderName m)
                               (default "" (LookupModelInfo m))],
              {[m]} ∪ seen)
        else (infos, seen)
    | None => (infos, seen)
    end.
Proof.
  unfold autoSearchStep, discoverable. destruct model as [m|]; [|reflexivity].
  destruct (String.eqb m ""); [reflexivity|]. cbn [negb andb].
  destruct (Contains (ToLower m) lowerBase); [|reflexivity]. cbn [andb].
  destruct (0 <? length (GetProviderName m))%nat; [|reflexivity].
  cbn [andb]. destruct (decide (m ∈ seen)) as [Hin|Hout].
  - rewrite (bool_decide_eq_true_2 _ Hin). reflexivity.
  - rewrite (bool_decide_eq_false_2 _ Hout). reflexivity.
Qed.

Lemma autoSearchStep_collected (lowerBase : string)
    (processed : list (option string))
    (st : list candidateInfo * gset string) (model : option string) :
  collected lowerBase processed st ->
  collected lowerBase (processed ++ [model]) (autoSearchStep lowerBase st model).
Proof.
  unfold collected. destruct st as [infos seen].
  intros [Hseen [Hnd Hmem]]. cbn [fst snd] in *.
  rewrite autoSearchStep_eq.
  assert (forall m, In (Some m) (processed ++ [model])
                    <-> In (Some m) processed \/ model = Some m) as Hin.
  { intros m. rewrite in_app_iff. cbn. intuition congruence. }
  destruct model as [m0|].
  - destruct (discoverable lowerBase m0) eqn:Hd; cbn [andb].
    + destruct (bool_decide (m0 ∈ seen)) eqn:Hs; cbn [negb].
      * apply bool_decide_eq_true_1 in Hs. split; [exact Hseen|].
        split; [exact Hnd|]. intros m. rewrite Hmem, Hin. split.
        -- intros [Hp Hm]. auto.
        -- intros [[Hp|[= ->]] Hm]; [auto|].
           apply Hmem. apply Hseen. exact Hs.
      * apply bool_decide_eq_false_1 in Hs. cbn [fst snd].
        rewrite map_app. cbn [map modelID]. split; [|split].
        -- intros m. rewrite in_app_iff, elem_of_union, elem_of_singleton.
           rewrite Hseen. cbn. intuition congruence.
        -- apply NoDup_app. split; [exact Hnd|]. split.
           ++ intros x Hx%list_elem_of_In [->|[]]%list_elem_of_In.
              apply Hs, Hseen. exact Hx.
           ++ apply NoDup_singleton.
        -- intros m. rewrite in_app_iff, Hmem, Hin. cbn. split.
           ++ intros [[Hp Hm]|[<-|[]]]; auto.
           ++ intros [[Hp|[= ->]] Hm]; auto.
    + cbn [andb]. split; [exact Hseen|]. split; [exact Hnd|].
      intros m. rewrite Hmem, Hin. split.
      * intros [Hp Hm]. auto.
      * intros [[Hp|[= ->]] Hm]; [auto|congruence].
  - split; [exact Hseen|]. split; [exact Hnd|].
    intros m. rewrite Hmem, Hin. intuition congruence.
Qed.

Lemma foldl_autoSearchStep_collected (lowerBase : string)
    (l processed : list (option string))
    (st : list candidateInfo * gset string) :
  collected lowerBase processed st ->
  collected lowerBase (processed ++ l) (foldl (autoSearchStep lowerBase) st l).
Proof.
  revert processed st. induction l as [|model l IH]; intros processed st Hst.
  - rewrite List.app_nil_r. exact Hst.
  - cbn [foldl].
    replace (processed ++ model :: l) with ((processed ++ [model]) ++ l)
      by (rewrite <- List.app_assoc; reflexivity).
    apply IH. apply autoSearchStep_collected. exact Hst.
Qed.

Lemma autoSearchModels_spec (r : ModelRouter) (modelName : string) :
  NoDup (autoSearchModels r modelName)
  /\ forall m,
       In m (autoSearchModels r modelName)
       <-> extractBaseModelName modelName <> ""
           /\ In (Some m) GetAvailableModels
           /\ discoverable (ToLower (extractBaseModelName modelName)) m = true.
Proof.
  unfold autoSearchModels.
  destruct (String.eqb_spec (extractBaseModelName modelName) "") as [Hbase|Hbase].
  { split; [constructor|]. intros m. cbn. tauto. }
  set (lowerBase := ToLower (extractBaseModelName modelName)).
  destruct (foldl_autoSearchStep_collected lowerBase GetAvailableModels []
              ([], ∅)) as [Hseen [Hnd Hmem]].
  { unfold collected. split; [|split]; cbn.
    - intros m. rewrite elem_of_empty. tauto.
    - constructor.
    - intros m. tauto. }
  cbn [app] in *.
  destruct (foldl (autoSearchStep lowerBase) ([], ∅) GetAvailableModels)
    as [infos seen].
  cbn [fst snd] in *.
  destruct (length infos =? 0)%nat eqn:Hlen.
  - apply Nat.eqb_eq in Hlen. destruct infos; [|discriminate].
    split; [constructor|]. intros m. rewrite <- Hmem. cbn. tauto.
  - pose proof (sort_ids_Permutation r infos (extractBaseModelName modelName))
      as Hp.
    split.
    + rewrite Hp. exact Hnd.
    + intros m. rewrite <- Hmem. split.
      * intros Hin. split; [exact Hbase|].
        eapply Permutation_in; [exact Hp|exact Hin].
      * intros [_ Hin]. eapply Permutation_in; [symmetry; exact Hp|exact Hin].
Qed.

(** X22. What auto-discovery returns: exactly the ids of the registry that
    are not empty, contain the base name (case apart) and have a provider,
    each of them once however often the registry lists it; and nothing at
    all when the base name is empty. *)
Theorem auto_discovery_finds (r : ModelRouter) (modelName : string) :
  NoDup (autoSearchModels r modelName)
  /\ forall m,
       In m (autoSearchModels r modelName)
       <-> extractBaseModelName modelName <> ""
           /\ In (Some m) GetAvailableModels
           /\ discoverable (ToLower (extractBaseModelName modelName)) m = true.
Proof. exact (autoSearchModels_spec r modelName). Qed.

(** X23. Auto-discovery finds the requested model itself: when the
    trimmed name is in the registry with a provider, and its base name is
    not empty, it is among the results. *)
Theorem requested_model_is_discovered (r : ModelRouter) (modelName : string) :
  extractBaseModelName modelName <> "" ->
  In (Some (TrimSpace modelName)) GetAvailableModels ->
  GetProviderName (TrimSpace modelName) <> [] ->
  In (TrimSpace modelName) (autoSearchModels r modelName).
Proof.
  intros Hbase Hreg Hprov. apply autoSearchModels_spec.
  split; [exact Hbase|]. split; [exact Hreg|].
  destruct (BaseNameMore.base_name_prefix modelName) as [rest Hrest].
  unfold discoverable. rewrite !andb_true_iff. split; [split|].
  - apply negb_true_iff, String.eqb_neq. intros Hempty.
    apply Hbase. unfold extractBaseModelName. rewrite Hempty. reflexivity.
  - apply WildcardMore.Contains_spec.
    exists "", (ToLower rest). rewrite app_nil_l.
    rewrite <- WildcardMore.ToLower_app, <- Hrest. reflexivity.
  - apply Nat.ltb_lt. destruct (GetProviderName (TrimSpace modelName));
      [congruence|cbn; lia].
Qed.

End WithCollaborators.

Lemma requested_model_is_discovered_witness :
  In (TrimSpace " gpt-x-mini ")
     (@autoSearchModels Demo.collaborators (Demo.router false) " gpt-x-mini ").
Proof.
  apply (@requested_model_is_discovered Demo.collaborators
           (Demo.router false) " gpt-x-mini ").
  - vm_compute. discriminate.
  - left. reflexivity.
  - vm_compute. discriminate.
Defined.

End DiscoveryMore.

(* ===================================================================== *)
(** * More on provider priorities *)
(* ===================================================================== *)

Module PriorityMore.

Import Config Router RouterSpec SortFacts RankingFacts.

(** X24. Under any priority list of at most 9999 providers, the
    candidates none of whose providers is in the list come last, in
    discovery order, after all the others, which are in the order of
    their best priority and, within one priority, in discovery order. *)
Theorem unprioritized_come_last (r : ModelRouter)
    (candidates : list candidateInfo) (baseName : string) :
  let priorityList := priorityListOf r (inferModelFamily baseName) in
  let key := fun c => getBestProviderPriority (providers c)
                        (fillPriorityMap 0 priorityList ∅) in
  priorityList <> [] ->
  Z.of_nat (length priorityList) <= 9999 ->
  sortCandidatesByProviderPriority r candidates baseName
  = map modelID
      (SliceStable (lessBy key)
         (List.filter (prioritized priorityList) candidates)
       ++ List.filter (fun c => negb (prioritized priorityList c)) candidates)
  /\ sortedBy key
       (SliceStable (lessBy key)
          (List.filter (prioritized priorityList) candidates))
  /\ forall k,
       List.filter (fun c => key c =? k)
         (SliceStable (lessBy key)
            (List.filter (prioritized priorityList) candidates))
       = List.filter (fun c => key c =? k)
           (List.filter (prioritized priorityList) candidates).
Proof.
  intros priorityList key Hne Hlen. split; [|split].
  - exact (unprioritized_last r candidates baseName Hne Hlen).
  - apply SliceStable_sorted.
  - intros k. apply SliceStable_stable.
Qed.

Lemma unprioritized_come_last_witness :
  sortCandidatesByProviderPriority (Demo.router true)
    [mkInfo "m1" ["p9"] ""; mkInfo "m2" ["p1"] "";
     mkInfo "m3" ["p8"] ""; mkInfo "m4" ["p1"; "p2"] ""] "gpt-x"
  = ["m4"; "m2"; "m1"; "m3"].
Proof.
  assert (priorityListOf (Demo.router true) (inferModelFamily "gpt-x")
          = ["p2"; "p1"]) as Hlist by (vm_compute; reflexivity).
  destruct (unprioritized_come_last (Demo.router true)
              [mkInfo "m1" ["p9"] ""; mkInfo "m2" ["p1"] "";
               mkInfo "m3" ["p8"] ""; mkInfo "m4" ["p1"; "p2"] ""] "gpt-x")
    as [Heq _].
  - rewrite Hlist. discriminate.
  - rewrite Hlist. cbn. lia.
  - rewrite Heq. vm_compute. reflexivity.
Defined.

Lemma best_fold_attained (pm : gmap string Z) (ps : list string) (best : Z) :
  let result :=
    foldl (fun best provider =>
             match pm !! provider with
             | Some priority => if priority <? best then priority else best
             | None => best
             end) best ps in
  result = best \/ exists p, In p ps /\ pm !! p = Some result.
Proof.
  revert best. induction ps as [|p ps IH]; intros best; cbn [foldl].
  - left. reflexivity.
  - cbv zeta. destruct (pm !! p) as [j|] eqn:Hp.
    + destruct (j <? best) eqn:Hlt.
      * destruct (IH j) as [Heq|[q [Hq Hres]]]; cbv zeta in *.
        -- right. exists p. split; [left; reflexivity|]. rewrite Heq. exact Hp.
        -- right. exists q. split; [right; exact Hq|exact Hres].
      * destruct (IH best) as [Heq|[q [Hq Hres]]]; cbv zeta in *.
        -- left. exact Heq.
        -- right. exists q. split; [right; exact Hq|exact Hres].
    + destruct (IH best) as [Heq|[q [Hq Hres]]]; cbv zeta in *.
      * left. exact Heq.
      * right. exists q. split; [right; exact Hq|exact Hres].
Qed.

Lemma best_fold_lower (pm : gmap string Z) (ps : list string) (best : Z) :
  let result :=
    foldl (fun best provider =>
             match pm !! provider with
             | Some priority => if priority <? best then priority else best
             | None => best
             end) best ps in
  forall p j, In p ps -> pm !! p = Some j -> result <= j.
Proof.
  revert best. induction ps as [|p ps IH]; intros best; cbn [foldl];
    cbv zeta; [intros p j []|].
  intros q j [<-|Hq] Hj.
  - rewrite Hj.
    destruct (j <? best) eqn:Hlt;
      [apply Z.ltb_lt in Hlt|apply Z.ltb_ge in Hlt].
    + apply (proj1 (best_fold pm ps j)).
    + pose proof (proj1 (best_fold pm ps best)) as Hle. cbv zeta in Hle. lia.
  - apply (IH _ q j Hq Hj).
Qed.

(** X25. [getBestProviderPriority] returns the least of 9999 and the
    priorities the map gives to the providers: the result is at most 9999
    and at most the priority of each provider, and it is 9999 or the
    priority of one of them. Providers missing from the map do not count,
    and a priority of 9999 or more is as good as none. *)
Theorem best_priority_is_least (providers : list string)
    (priorityMap : gmap string Z) :
  let best := getBestProviderPriority providers priorityMap in
  best <= 9999
  /\ (forall p j, In p providers -> priorityMap !! p = Some j -> best <= j)
  /\ (best = 9999
      \/ exists p, In p providers /\ priorityMap !! p = Some best).
Proof.
  cbv zeta. unfold getBestProviderPriority. split; [|split].
  - apply (proj1 (best_fold priorityMap providers 9999)).
  - apply (best_fold_lower priorityMap providers 9999).
  - apply (best_fold_attained priorityMap providers 9999).
Qed.

Lemma fillPriorityMap_last (l2 : list string) (p : string) (i : Z)
    (m : gmap string Z) (l1 : list string) :
  ~ In p l2 ->
  fillPriorityMap i (l1 ++ p :: l2) m !! p = Some (i + Z.of_nat (length l1)).
Proof.
  intros Hl2. revert i m. induction l1 as [|q l1 IH]; intros i m.
  - cbn [app fillPriorityMap length].
    destruct (fillPriorityMap_lookup l2 (i + 1) (<[p := i]> m) p) as [_ Hout].
    rewrite (Hout Hl2), lookup_insert_eq. f_equal. lia.
  - cbn [app fillPriorityMap length]. rewrite IH. f_equal. lia.
Qed.

(** X26. The priority of a provider is the index of its last occurrence
    in the priority list, counted from 0; a provider that is not in the
    list has none. So a provider listed twice takes the later, worse
    place. *)
Theorem priority_is_last_index (priorityList : list string) (p : string) :
  (~ In p priorityList -> fillPriorityMap 0 priorityList ∅ !! p = None)
  /\ (forall l1 l2,
        priorityList = l1 ++ p :: l2 -> ~ In p l2 ->
        fillPriorityMap 0 priorityList ∅ !! p = Some (Z.of_nat (length l1))).
Proof.
  split.
  - intros Hout.
    destruct (fillPriorityMap_lookup priorityList 0 ∅ p) as [_ Hkeep].
    rewrite (Hkeep Hout). apply lookup_empty.
  - intros l1 l2 -> Hl2. rewrite (fillPriorityMap_last l2 p 0 ∅ l1 Hl2).
    f_equal.
Qed.

Lemma priority_is_last_index_witness :
  fillPriorityMap 0 ["p1"; "p2"; "p1"; "p3"] ∅ !! "p1" = Some 2
  /\ fillPriorityMap 0 ["p1"; "p2"; "p1"; "p3"] ∅ !! "p4" = None.
Proof.
  destruct (priority_is_last_index ["p1"; "p2"; "p1"; "p3"] "p1") as [_ Hin].
  destruct (priority_is_last_index ["p1"; "p2"; "p1"; "p3"] "p4") as [Hout _].
  split.
  - apply (Hin ["p1"; "p2"] ["p3"]); [reflexivity|].
    intros [Heq|[]]. discriminate Heq.
  - apply Hout. intros Hp. repeat destruct Hp as [Hp|Hp]; discriminate || exact Hp.
Defined.

End PriorityMore.

(* ===================================================================== *)
(** * Resolution of a candidate pattern *)
(* ===================================================================== *)

Module ResolveMore.

Import RouterSpec DemoResolve.

Section WithParser.
Context `{Collaborators}.
Variable ParseSuffix : string -> Resolve.SuffixResult.

(** The loop returns the first model that resolves the pattern. *)
Lemma resolveLoop_find (pattern suffix : string)
    (allModels : list (option string)) :
  Resolve.resolveLoop pattern suffix allModels
  = match List.find (resolves pattern) allModels with
    | Some (Some modelID) => decorate suffix modelID
    | _ => ""
    end.
Proof.
  induction allModels as [|model rest IH]; [reflexivity|].
  cbn [Resolve.resolveLoop List.find]. unfold resolves at 1.
  destruct model as [modelID|]; [|exact IH].
  destruct (String.eqb modelID ""); [exact IH|]. cbn [negb andb].
  destruct (matchWildcard pattern modelID); [|exact IH]. cbn [andb].
  destruct (0 <? length (GetProviderName modelID))%nat; [reflexivity|exact IH].
Qed.

(** X27. What a candidate resolves to. With [pattern] and [suffix] the
    model name and the suffix the parser finds in the trimmed candidate:
    a pattern without [*] resolves to itself when it has a provider; a
    pattern with [*] resolves to the first model of the registry, in
    registry order, that has a non-empty id matching the pattern and a
    provider; in both cases the suffix, if any, is re-attached in
    parentheses, and in every other case (blank candidate included) the
    result is the empty string. A result that is not empty always names a
    model with a provider. *)
Theorem candidate_resolution (candidate : string) :
  let parsed := ParseSuffix (TrimSpace candidate) in
  let pattern := Resolve.ModelName parsed in
  let suffix :=
    if Resolve.HasSuffix parsed then Resolve.RawSuffix parsed else "" in
  let result := Resolve.ResolveFuzzyCandidate ParseSuffix candidate in
  (TrimSpace candidate = "" -> result = "")
  /\ (TrimSpace candidate <> "" -> Contains pattern "*" = false ->
      result = if (0 <? length (GetProviderName pattern))%nat
               then decorate suffix pattern else "")
  /\ (TrimSpace candidate <> "" -> Contains pattern "*" = true ->
      (forall before modelID after,
         GetAvailableModels = before ++ Some modelID :: after ->
         resolves pattern (Some modelID) = true ->
         Forall (fun model => resolves pattern model = false) before ->
         result = decorate suffix modelID)
      /\ (Forall (fun model => resolves pattern model = false)
                 GetAvailableModels ->
          result = ""))
  /\ (result <> "" ->
      exists modelID,
        result = decorate suffix modelID
        /\ GetProviderName modelID <> []
        /\ (Contains pattern "*" = false -> modelID = pattern)
        /\ (Contains pattern "*" = true ->
            In (Some modelID) GetAvailableModels
            /\ matchWildcard pattern modelID = true)).
Proof.
  cbv zeta. unfold Resolve.ResolveFuzzyCandidate.
  set (parsed := ParseSuffix (TrimSpace candidate)).
  set (pattern := Resolve.ModelName parsed).
  set (suffix := if Resolve.HasSuffix parsed then Resolve.RawSuffix parsed
                 else "").
  destruct (String.eqb_spec (TrimSpace candidate) "") as [Hblank|Hcand].
  { repeat split; congruence. }
  rewrite resolveLoop_find.
  split; [congruence|].
  destruct (Contains pattern "*") eqn:Hstar; cbn [negb].
  - split; [discriminate|]. split.
    + intros _ _. split.
      * intros before modelID after Hreg Hres Hbefore. rewrite Hreg.
        assert (List.find (resolves pattern) (before ++ Some modelID :: after)
                = Some (Some modelID)) as ->; [|reflexivity].
        clear Hreg. induction Hbefore as [|x before Hx _ IH]; cbn.
        -- cbn in Hres. rewrite Hres. reflexivity.
        -- rewrite Hx. exact IH.
      * intros Hnone.
        destruct (List.find (resolves pattern) GetAvailableModels)
          as [model|] eqn:Hfind; [|reflexivity].
        apply find_some in Hfind as [Hin Hres].
        rewrite List.Forall_forall in Hnone.
        rewrite (Hnone _ Hin) in Hres. discriminate.
    + destruct (List.find (resolves pattern) GetAvailableModels)
        as [[modelID|]|] eqn:Hfind; try congruence.
      intros _. apply find_some in Hfind as [Hin Hres].
      unfold resolves in Hres. rewrite !andb_true_iff in Hres.
      destruct Hres as [[_ Hmatch] Hprov]. apply Nat.ltb_lt in Hprov.
      exists modelID. split; [reflexivity|]. split.
      * intros Hnil. rewrite Hnil in Hprov. cbn in Hprov. lia.
      * split; [discriminate|]. auto.
  - split; [intros _ _; reflexivity|]. split; [discriminate|].
    destruct (0 <? length (GetProviderName pattern))%nat eqn:Hprov;
      [|congruence].
    intros _. apply Nat.ltb_lt in Hprov.
    exists pattern. split; [reflexivity|]. split.
    + intros Hnil. rewrite Hnil in Hprov. cbn in Hprov. lia.
    + split; [reflexivity|discriminate].
Qed.

End WithParser.

(** The annotated wildcard candidate resolves to the first model the demo
    registry has for it, the suffix re-attached. *)
Lemma candidate_resolution_witness :
  @Resolve.ResolveFuzzyCandidate Demo.collaborators parseSuffix
    "  *GPT-X*(high) "
  = "gpt-x-mini(high)".
Proof.
  destruct (@candidate_resolution Demo.collaborators parseSuffix
              "  *GPT-X*(high) ") as [_ [_ [Hwild _]]].
  cbv zeta in Hwild.
  destruct Hwild as [Hfirst _]; [vm_compute; discriminate|reflexivity|].
  rewrite (Hfirst [] "gpt-x-mini"
             [None; Some "gpt-x-2024-08"; Some "gpt-x-orphan";
              Some "claude-opus"; Some "gpt-x-2024-08"]);
    [reflexivity|reflexivity|vm_compute; reflexivity|constructor].
Defined.

End ResolveMore.

(* ===================================================================== *)
(** * The model family *)
(* ===================================================================== *)

Module FamilyMore.

Import Router.

(** X28. The model family is read off the lower-case form of the base
    name: a name and its lower-case form have the same family, hence the
    same ranking of every candidate list, and so has the version-suffix
    test. The family is one of ["claude"], ["gpt"], ["gemini"], ["qwen"]
    and the empty string, so that no other key of the priority
    configuration is ever consulted. *)
Theorem family_ignores_case (baseName : string) :
  inferModelFamily (ToLower baseName) = inferModelFamily baseName
  /\ isVersionSuffix (ToLower baseName) = isVersionSuffix baseName
  /\ In (inferModelFamily baseName) ["claude"; "gpt"; "gemini"; "qwen"; ""]
  /\ forall (r : ModelRouter) (candidates : list candidateInfo),
       sortCandidatesByProviderPriority r candidates (ToLower baseName)
       = sortCandidatesByProviderPriority r candidates baseName.
Proof.
  assert (inferModelFamily (ToLower baseName) = inferModelFamily baseName)
    as Hfam.
  { unfold inferModelFamily. rewrite GlobFacts.ToLower_idem. reflexivity. }
  split; [exact Hfam|]. split.
  { unfold isVersionSuffix. rewrite GlobFacts.ToLower_idem. reflexivity. }
  split.
  - unfold inferModelFamily.
    repeat match goal with
           | |- context [if ?b then _ else _] => destruct b
           end; cbn; tauto.
  - intros r candidates. unfold sortCandidatesByProviderPriority.
    rewrite Hfam. reflexivity.
Qed.

End FamilyMore.
